(** * file_tag_manager: the file inventory and the tag store

    A shallow embedding of [file_tag_manager/core/file_manager.py] and
    [file_tag_manager/core/tag_manager.py].

    Python [str] values are modelled by [string] (sequences of 8-bit
    characters), [dict] by [gmap], [set] by [gset].  Methods that mutate
    the manager are functions in a state-and-exception monad: an exception
    leaves the mutations made before it in place, as in Python.  A loop
    over a dict or a set runs in the order of [map_to_list] or
    [elements]; the statements below hold for any order. *)

From stdpp Require Import gmap strings list fin_maps sorting pretty.
From Stdlib Require Import Ascii.

Local Open Scope stdpp_scope.

(** ** Python string methods used by the managers *)

Module PyStr.

Definition chars (s : string) : list ascii := String.list_ascii_of_string s.
Definition of_chars (l : list ascii) : string := String.string_of_list_ascii l.

(** [s.startswith(p)] *)
Fixpoint startswith (s p : string) : bool :=
  match p, s with
  | EmptyString, _ => true
  | String a p', String b s' => if decide (a = b) then startswith s' p' else false
  | String _ _, EmptyString => false
  end.

Definition mem (c : ascii) (cs : list ascii) : bool := bool_decide (c ∈ cs).

(** [s.lstrip(cs)]: drop the leading characters that belong to [cs]. *)
Fixpoint lstrip (cs : list ascii) (s : string) : string :=
  match s with
  | EmptyString => EmptyString
  | String c s' => if mem c cs then lstrip cs s' else s
  end.

(** [s.rstrip(cs)]: drop the trailing characters that belong to [cs]. *)
Fixpoint rstrip (cs : list ascii) (s : string) : string :=
  match s with
  | EmptyString => EmptyString
  | String c s' =>
      match rstrip cs s' with
      | EmptyString => if mem c cs then EmptyString else String c EmptyString
      | r => String c r
      end
  end.

(** [s.replace(a, b)] for one-character [a] and [b]. *)
Fixpoint replace (a b : ascii) (s : string) : string :=
  match s with
  | EmptyString => EmptyString
  | String c s' => String (if decide (c = a) then b else c) (replace a b s')
  end.

(** [s.split(sep)] for a one-character separator: never the empty list. *)
Fixpoint split (sep : ascii) (s : string) : list string :=
  match s with
  | EmptyString => [EmptyString]
  | String c s' =>
      if decide (c = sep) then EmptyString :: split sep s'
      else match split sep s' with
           | [] => [String c EmptyString]
           | p :: ps => String c p :: ps
           end
  end.

(** [sep.join(parts)] *)
Fixpoint join (sep : string) (parts : list string) : string :=
  match parts with
  | [] => EmptyString
  | [p] => p
  | p :: ps => p +:+ sep +:+ join sep ps
  end.

(** [s[n:]] *)
Fixpoint drop_chars (n : nat) (s : string) : string :=
  match n, s with
  | O, _ => s
  | S n', String _ s' => drop_chars n' s'
  | S _, EmptyString => EmptyString
  end.

Definition slash : ascii := "/"%char.
Definition backslash : ascii := "\"%char.
Definition bang : ascii := "!"%char.
Definition star : ascii := "*"%char.

End PyStr.

(** ** [fnmatch.fnmatch] on a POSIX host

    [os.path.normcase] is the identity there, so [fnmatch] is
    [fnmatchcase]: the pattern is translated to a regular expression that
    has to match the whole name.  The translation is kept as a token list:
    [*] is any run of characters (path separators included), [?] is any one
    character, [[seq]] and [[!seq]] are character classes, every other
    character stands for itself. *)

Module Fnmatch.

Inductive tok :=
| TStar
| TAny
| TLit (c : ascii)
| TClass (negated : bool) (items : list (ascii * ascii)).

(** Items of a class body: [a-b] is a range, any other character a
    one-character range. *)
Fixpoint class_items (fuel : nat) (body : list ascii) : list (ascii * ascii) :=
  match fuel with
  | O => []
  | S fuel' =>
      match body with
      | [] => []
      | a :: "-"%char :: b :: rest => (a, b) :: class_items fuel' rest
      | a :: rest => (a, a) :: class_items fuel' rest
      end
  end.

(** The scan for the closing bracket: the characters up to the first
    ["]"], and what follows it. *)
Fixpoint until_close (l : list ascii) : option (list ascii * list ascii) :=
  match l with
  | [] => None
  | c :: l' =>
      if decide (c = "]"%char) then Some ([], l')
      else match until_close l' with
           | Some (body, rest) => Some (c :: body, rest)
           | None => None
           end
  end.

(** What follows a ["["]: an optional ["!"], an optional leading ["]"]
    taken literally, then the body up to the closing bracket. *)
Definition bracket (l : list ascii) : option (bool * list ascii * list ascii) :=
  let '(neg, l1) :=
    match l with
    | "!"%char :: l' => (true, l')
    | _ => (false, l)
    end in
  let '(lead, l2) :=
    match l1 with
    | "]"%char :: l' => (["]"%char], l')
    | _ => ([], l1)
    end in
  match until_close l2 with
  | Some (body, rest) => Some (neg, lead ++ body, rest)
  | None => None
  end.

Fixpoint translate (fuel : nat) (pat : list ascii) : list tok :=
  match fuel with
  | O => []
  | S fuel' =>
      match pat with
      | [] => []
      | c :: rest =>
          if decide (c = "*"%char) then TStar :: translate fuel' rest
          else if decide (c = "?"%char) then TAny :: translate fuel' rest
          else if decide (c = "["%char) then
            match bracket rest with
            | Some (neg, body, rest') =>
                TClass neg (class_items (length body) body) :: translate fuel' rest'
            | None => TLit c :: translate fuel' rest
            end
          else TLit c :: translate fuel' rest
      end
  end.

Definition code (c : ascii) : N := N_of_ascii c.

Definition in_class (items : list (ascii * ascii)) (c : ascii) : bool :=
  existsb (λ r, (code (fst r) <=? code c)%N && (code c <=? code (snd r))%N) items.

Definition tok_accepts (t : tok) (c : ascii) : bool :=
  match t with
  | TStar | TAny => true
  | TLit a => bool_decide (a = c)
  | TClass neg items => xorb neg (in_class items c)
  end.

(** Whole-string match of a token list. *)
Fixpoint matches (ts : list tok) (s : list ascii) : bool :=
  match ts with
  | [] => match s with [] => true | _ => false end
  | TStar :: ts' =>
      (fix star (s : list ascii) : bool :=
         matches ts' s || match s with [] => false | _ :: s' => star s' end) s
  | t :: ts' =>
      match s with
      | [] => false
      | c :: s' => tok_accepts t c && matches ts' s'
      end
  end.

Definition fnmatch (name pat : string) : bool :=
  let p := PyStr.chars pat in
  matches (translate (length p) p) (PyStr.chars name).

End Fnmatch.

(** ** [os.path] on a POSIX host

    Every path the managers handle (the configured root, the paths of the
    watcher's events, the paths met during a scan) is absolute; on an
    absolute path [os.path.abspath] is [os.path.normpath]. *)

Module PyPath.

(** The loop of [posixpath.normpath] over the components; [new_comps]
    is kept with its last element first. *)
Fixpoint norm_comps (initial_slashes : bool) (comps new_comps : list string)
  : list string :=
  match comps with
  | [] => rev new_comps
  | comp :: rest =>
      if bool_decide (comp = "" ∨ comp = ".") then
        norm_comps initial_slashes rest new_comps
      else if bool_decide (comp ≠ "..")
              || (negb initial_slashes && bool_decide (new_comps = []))
              || bool_decide (head new_comps = Some "..") then
        norm_comps initial_slashes rest (comp :: new_comps)
      else norm_comps initial_slashes rest (tail new_comps)
  end.

Definition normpath (path : string) : string :=
  if decide (path = "") then "."
  else
    let initial_slashes : nat :=
      if PyStr.startswith path "/" then
        if PyStr.startswith path "//" && negb (PyStr.startswith path "///")
        then 2 else 1
      else 0 in
    let comps := norm_comps (bool_decide (initial_slashes ≠ 0))
                            (PyStr.split PyStr.slash path) [] in
    let joined := PyStr.join "/" comps in
    let path' :=
      match initial_slashes with
      | 0 => joined
      | 1 => "/" +:+ joined
      | _ => "//" +:+ joined
      end in
    if decide (path' = "") then "." else path'.

(** [os.path.abspath(path)] for an absolute [path]: the normalised path.
    The working directory, which [os.path.abspath] puts before a
    relative path, is not modelled: the paths the manager meets come
    from the watcher and from its own absolute root. *)
Definition abspath (path : string) : string := normpath path.

Fixpoint commonprefix_len (a b : list string) : nat :=
  match a, b with
  | x :: a', y :: b' => if decide (x = y) then S (commonprefix_len a' b') else 0
  | _, _ => 0
  end.

Definition nonempty_parts (p : string) : list string :=
  filter (λ x, x ≠ "") (PyStr.split PyStr.slash p).

(** [os.path.relpath(path, start)] *)
Definition relpath (path start : string) : string :=
  let start_list := nonempty_parts (abspath start) in
  let path_list := nonempty_parts (abspath path) in
  let i := commonprefix_len start_list path_list in
  let rel_list := replicate (length start_list - i) ".." ++ drop i path_list in
  match rel_list with
  | [] => "."
  | _ => PyStr.join "/" rel_list
  end.

(** [os.path.join(a, b)] *)
Definition join (a b : string) : string :=
  if PyStr.startswith b "/" then b
  else if bool_decide (a = "") || PyStr.startswith (String.rev a) "/" then a +:+ b
  else a +:+ "/" +:+ b.

(** [os.path.dirname(p)]: everything up to the last separator, without
    trailing separators unless it consists of separators only. *)
Fixpoint dirname_head (p : string) : string :=
  match p with
  | EmptyString => EmptyString
  | String c p' =>
      match dirname_head p' with
      | EmptyString => if decide (c = PyStr.slash) then String c EmptyString else EmptyString
      | h => String c h
      end
  end.

Definition dirname (p : string) : string :=
  let head := dirname_head p in
  if bool_decide (PyStr.lstrip [PyStr.slash] head = "") then head
  else PyStr.rstrip [PyStr.slash] head.

End PyPath.

(** ** Exceptions and the state-and-exception monad *)

(** The exceptions met in the two managers, all of class [Exception]:
    the built-in ones the code raises or can run into, and [Exception]
    itself for what a callback raises.  The text of a message is not
    modelled. *)
Inductive exn :=
| KeyError (key : string)
| ValueError (msg : string)
| RecursionError
| Exception (msg : string).

Inductive result (A : Type) :=
| Ok (a : A)
| Raise (e : exn).
Arguments Ok {A} a.
Arguments Raise {A} e.

(** A computation on a state [St]: it returns or raises, and in both
    cases hands back the state as the statements run so far left it. *)
Definition M (St A : Type) : Type := St → result A * St.

Global Instance M_ret {St} : MRet (M St) := λ A a s, (Ok a, s).

Global Instance M_bind {St} : MBind (M St) :=
  λ A B k m s, match m s with
               | (Ok a, s') => k a s'
               | (Raise e, s') => (Raise e, s')
               end.

Definition raise {St A} (e : exn) : M St A := λ s, (Raise e, s).
Definition get {St} : M St St := λ s, (Ok s, s).
Definition modify {St} (f : St → St) : M St unit := λ s, (Ok tt, f s).

(** [try: m  except Exception as e: h e] *)
Definition try_except {St A} (m : M St A) (h : exn → M St A) : M St A :=
  λ s, match m s with
       | (Ok a, s') => (Ok a, s')
       | (Raise e, s') => h e s'
       end.

(** [for x in l: body x] *)
Fixpoint for_each {St X} (l : list X) (body : X → M St unit) : M St unit :=
  match l with
  | [] => mret tt
  | x :: l' => body x;; for_each l' body
  end.

(** The computation keeps the property [I] of the state, however it
    ends. *)
Definition preserves {St A} (I : St → Prop) (m : M St A) : Prop :=
  ∀ s, I s → I (snd (m s)).

(** ** The file manager: [core/file_manager.py] *)

Module FileManager.

(** What [os.stat] reports of a regular file, as far as [_add_file]
    reads it; the two times are epoch timestamps that are only stored. *)
Record Stat := { st_size : Z; st_ctime : Z; st_mtime : Z }.

(** The value kept in [self.files] for a path. *)
Record FileInfo := {
  size : Z;
  created_time : Z;
  modified_time : Z;
  relative_path : string;
}.

(** The disk, as a tree below the root directory ["/"]. *)
#[warnings="-register-all"] Inductive fs_node :=
| FsFile (name : string) (st : Stat)
| FsDir (name : string) (entries : list fs_node).

Definition node_name (n : fs_node) : string :=
  match n with
  | FsFile nm _ => nm
  | FsDir nm _ => nm
  end.

Fixpoint descend (comps : list string) (n : fs_node) : option fs_node :=
  match comps with
  | [] => Some n
  | c :: rest =>
      match n with
      | FsFile _ _ => None
      | FsDir _ entries =>
          (fix find (l : list fs_node) : option fs_node :=
             match l with
             | [] => None
             | e :: l' =>
                 if decide (node_name e = c) then descend rest e else find l'
             end) entries
      end
  end.

Definition fs_find (fs : fs_node) (path : string) : option fs_node :=
  descend (PyPath.nonempty_parts path) fs.

(** [os.path.exists(p) and os.path.isfile(p)], then [os.stat(p)] *)
Definition stat_file (fs : fs_node) (path : string) : option Stat :=
  match fs_find fs path with
  | Some (FsFile _ st) => Some st
  | _ => None
  end.






(** The arguments of one call of [_notify_file_change]. *)
Record Notice := {
  event_type : string;
  notice_src : string;
  notice_dst : option string;
}.

(** An event of the watcher. *)
Record FsEvent := {
  is_directory : bool;
  src_path : string;
  dest_path : string;
}.

(** The content of [files.json] as [_save_data] writes it. *)
Record Snapshot := {
  snap_root_dir : string;
  snap_files : gmap string FileInfo;
  snap_directories : list string;
  snap_include_patterns : list string;
  snap_exclude_patterns : list string;
  snap_recursive : bool;
}.

(** *** The pattern engine *)

(** [relative_path.split('/')] and the [sub_path] of every index:
    ['/'.join(path_parts[i:])]. *)
Definition sub_paths (relative_path : string) : list string :=
  let path_parts := PyStr.split PyStr.slash relative_path in
  map (λ i, PyStr.join "/" (drop i path_parts)) (seq 0 (length path_parts)).

Definition unslash (s : string) : string :=
  PyStr.replace PyStr.backslash PyStr.slash s.

(** The separation of the include list into [reinclude_patterns] (their
    ["!!"] removed) and [normal_include_patterns]. *)
Fixpoint split_include (patterns : list string) : list string * list string :=
  match patterns with
  | [] => ([], [])
  | pattern :: rest =>
      let pattern := unslash pattern in
      let '(reinclude, normal) := split_include rest in
      if PyStr.startswith pattern "!!"
      then (PyStr.drop_chars 2 pattern :: reinclude, normal)
      else (reinclude, pattern :: normal)
  end.

(** The exclude loop of [_should_include_file]: the [break] of the
    unanchored branch leaves the inner loop only, the one of the
    anchored branch leaves the loop over the patterns. *)
Fixpoint exclude_loop (relative_path : string) (patterns : list string)
    (is_excluded : bool) : bool :=
  match patterns with
  | [] => is_excluded
  | pattern :: rest =>
      let pattern := PyStr.lstrip [PyStr.bang] (unslash pattern) in
      if negb (PyStr.startswith pattern "/") then
        exclude_loop relative_path rest
          (if existsb (λ sub_path, Fnmatch.fnmatch sub_path pattern)
                      (sub_paths relative_path)
           then true else is_excluded)
      else if Fnmatch.fnmatch relative_path (PyStr.lstrip [PyStr.slash] pattern)
      then true
      else exclude_loop relative_path rest is_excluded
  end.

(** The reinclude loop and the include loop: [return True] at the first
    pattern that matches, [False] after the loop. *)
Fixpoint match_loop (relative_path : string) (patterns : list string) : bool :=
  match patterns with
  | [] => false
  | pattern :: rest =>
      if negb (PyStr.startswith pattern "/") then
        if existsb (λ sub_path, Fnmatch.fnmatch sub_path pattern)
                   (sub_paths relative_path)
        then true else match_loop relative_path rest
      else if Fnmatch.fnmatch relative_path (PyStr.lstrip [PyStr.slash] pattern)
      then true
      else match_loop relative_path rest
  end.

(** The decision of [_should_include_file] on the relative path. *)
Definition include_file_decision (include_patterns exclude_patterns : list string)
    (relative_path : string) : bool :=
  let '(reinclude_patterns, normal_include_patterns) :=
    split_include include_patterns in
  let is_excluded := exclude_loop relative_path exclude_patterns false in
  if is_excluded then match_loop relative_path reinclude_patterns
  else match_loop relative_path normal_include_patterns.

Definition strip_dir_suffix (pattern : string) : string :=
  PyStr.rstrip [PyStr.slash; PyStr.star] pattern.

(** The walk over the directory and its parents: [current_path] grows
    by one part per round and is tested against the pattern. *)
Fixpoint parents_loop (path_parts : list string) (current_path pattern : string)
  : bool :=
  match path_parts with
  | [] => false
  | part :: rest =>
      let current_path :=
        (if decide (current_path = "") then current_path
         else current_path +:+ "/") +:+ part in
      if Fnmatch.fnmatch current_path pattern then true
      else parents_loop rest current_path pattern
  end.

(** The loop over the include patterns inside an exclude match. *)
Fixpoint include_rescues (relative_path : string) (include_patterns : list string)
  : bool :=
  match include_patterns with
  | [] => false
  | include_pattern :: rest =>
      let include_pattern := unslash include_pattern in
      if Fnmatch.fnmatch relative_path (strip_dir_suffix include_pattern) then true
      else if Fnmatch.fnmatch (relative_path +:+ "/*") include_pattern then true
      else include_rescues relative_path rest
  end.

(** The exclude loop of [_should_include_directory]; [Some b] is a
    [return b] from inside the loop. *)
Fixpoint dir_exclude_loop (relative_path : string)
    (include_patterns patterns : list string) : option bool :=
  match patterns with
  | [] => None
  | pattern :: rest =>
      let pattern := PyStr.lstrip [PyStr.bang] (unslash pattern) in
      if negb (PyStr.startswith pattern "/") then
        if parents_loop (PyStr.split PyStr.slash relative_path) ""
                        (strip_dir_suffix pattern)
        then Some (include_rescues relative_path include_patterns)
        else dir_exclude_loop relative_path include_patterns rest
      else if Fnmatch.fnmatch relative_path
                (strip_dir_suffix (PyStr.lstrip [PyStr.slash] pattern))
      then Some (include_rescues relative_path include_patterns)
      else dir_exclude_loop relative_path include_patterns rest
  end.

(** The closing include loop of [_should_include_directory]. *)
Fixpoint dir_include_loop (relative_path : string) (patterns : list string) : bool :=
  match patterns with
  | [] => false
  | pattern :: rest =>
      let pattern := unslash pattern in
      if negb (PyStr.startswith pattern "/") then
        if existsb (λ sub_path, Fnmatch.fnmatch sub_path (strip_dir_suffix pattern))
                   (sub_paths relative_path)
        then true else dir_include_loop relative_path rest
      else if Fnmatch.fnmatch relative_path
                (strip_dir_suffix (PyStr.lstrip [PyStr.slash] pattern))
      then true
      else dir_include_loop relative_path rest
  end.

(** The decision of [_should_include_directory] on the relative path:
    after both loops the method returns [True]. *)
Definition include_directory_decision
    (include_patterns exclude_patterns : list string)
    (relative_path : string) : bool :=
  match dir_exclude_loop relative_path include_patterns exclude_patterns with
  | Some b => b
  | None =>
      if dir_include_loop relative_path include_patterns then true else true
  end.

(** *** The manager and what surrounds it *)

Section Subscribers.

(** [W] is whatever state the registered callbacks own. *)
Context {W : Type}.

(** A registered callback: [cb_id] stands for the identity of the Python
    callable, [cb_call] for its body, which returns or raises an
    exception of class [Exception] and may update the state it owns.
    A callback of this model does not touch the manager it is registered
    with; callables that register or unregister callbacks while they
    run, or raise outside [Exception], are those of [Delivery] below. *)
Record callback := {
  cb_id : nat;
  cb_call : Notice → W → result unit * W;
}.

Record Manager := {
  root_dir : string;
  files : gmap string FileInfo;
  directories : gset string;
  include_patterns : list string;
  exclude_patterns : list string;
  recursive : bool;
  file_change_callbacks : list callback;
}.

(** The manager together with [files.json], the state of the subscribers
    and the standard output.  [calls] and [emitted] are ghost traces: the
    callback invocations (callback, arguments) and the calls of
    [_notify_file_change], oldest first. *)
Record World := {
  mgr : Manager;
  storage : option Snapshot;
  subscribers : W;
  calls : list (nat * Notice);
  emitted : list Notice;
  stdout : list string;
}.

Definition set_files (f : gmap string FileInfo → gmap string FileInfo)
    (m : Manager) : Manager :=
  {| root_dir := root_dir m; files := f (files m);
     directories := directories m; include_patterns := include_patterns m;
     exclude_patterns := exclude_patterns m; recursive := recursive m;
     file_change_callbacks := file_change_callbacks m |}.

Definition set_directories (f : gset string → gset string) (m : Manager) : Manager :=
  {| root_dir := root_dir m; files := files m;
     directories := f (directories m); include_patterns := include_patterns m;
     exclude_patterns := exclude_patterns m; recursive := recursive m;
     file_change_callbacks := file_change_callbacks m |}.

Definition set_include_patterns (v : list string) (m : Manager) : Manager :=
  {| root_dir := root_dir m; files := files m;
     directories := directories m; include_patterns := v;
     exclude_patterns := exclude_patterns m; recursive := recursive m;
     file_change_callbacks := file_change_callbacks m |}.

Definition set_exclude_patterns (v : list string) (m : Manager) : Manager :=
  {| root_dir := root_dir m; files := files m;
     directories := directories m; include_patterns := include_patterns m;
     exclude_patterns := v; recursive := recursive m;
     file_change_callbacks := file_change_callbacks m |}.

Definition set_recursive (v : bool) (m : Manager) : Manager :=
  {| root_dir := root_dir m; files := files m;
     directories := directories m; include_patterns := include_patterns m;
     exclude_patterns := exclude_patterns m; recursive := v;
     file_change_callbacks := file_change_callbacks m |}.

Definition set_callbacks (f : list callback → list callback) (m : Manager) : Manager :=
  {| root_dir := root_dir m; files := files m;
     directories := directories m; include_patterns := include_patterns m;
     exclude_patterns := exclude_patterns m; recursive := recursive m;
     file_change_callbacks := f (file_change_callbacks m) |}.

Definition set_mgr (f : Manager → Manager) (w : World) : World :=
  {| mgr := f (mgr w); storage := storage w; subscribers := subscribers w;
     calls := calls w; emitted := emitted w; stdout := stdout w |}.

Definition set_storage (v : option Snapshot) (w : World) : World :=
  {| mgr := mgr w; storage := v; subscribers := subscribers w;
     calls := calls w; emitted := emitted w; stdout := stdout w |}.

Definition log_emitted (n : Notice) (w : World) : World :=
  {| mgr := mgr w; storage := storage w; subscribers := subscribers w;
     calls := calls w; emitted := emitted w ++ [n]; stdout := stdout w |}.

Definition print (line : string) : M World unit :=
  modify (λ w, {| mgr := mgr w; storage := storage w; subscribers := subscribers w;
                  calls := calls w; emitted := emitted w;
                  stdout := stdout w ++ [line] |}).

(** [callback(event_type, src_path, dst_path)] *)
Definition invoke (cb : callback) (n : Notice) : M World unit :=
  λ w, let '(r, s') := cb_call cb n (subscribers w) in
       (r, {| mgr := mgr w; storage := storage w; subscribers := s';
              calls := calls w ++ [(cb_id cb, n)]; emitted := emitted w;
              stdout := stdout w |}).

Definition _should_include_file (m : Manager) (file_path : string) : bool :=
  include_file_decision (include_patterns m) (exclude_patterns m)
    (unslash (PyPath.relpath file_path (root_dir m))).

Definition _should_include_directory (m : Manager) (dir_path : string) : bool :=
  include_directory_decision (include_patterns m) (exclude_patterns m)
    (unslash (PyPath.relpath dir_path (root_dir m))).

(** [del self.files[k]]: [KeyError] when the key is absent. *)
Definition del_file (k : string) : M World unit :=
  w ← get;
  match files (mgr w) !! k with
  | Some _ => modify (set_mgr (set_files (delete k)))
  | None => raise (KeyError k)
  end.

(** [self.directories.remove(d)]: [KeyError] when the element is absent. *)
Definition remove_dir (d : string) : M World unit :=
  w ← get;
  if decide (d ∈ directories (mgr w))
  then modify (set_mgr (set_directories (λ ds, ds ∖ {[d]})))
  else raise (KeyError d).

Definition add_dir (d : string) : M World unit :=
  modify (set_mgr (set_directories (λ ds, ds ∪ {[d]}))).

(** [_load_data], for a [files.json] that is absent or holds a
    snapshot; a file on which [json.load] raises is not modelled. *)
Definition _load_data : M World unit :=
  w ← get;
  match storage w with
  | None => mret tt
  | Some data =>
      if decide (snap_root_dir data = root_dir (mgr w)) then
        modify (set_mgr (λ m,
          let m := set_files (λ _, snap_files data) m in
          let m := set_directories (λ _, list_to_set (snap_directories data)) m in
          let m :=
            if bool_decide (include_patterns m = [] ∨ include_patterns m = ["*"])
            then set_include_patterns (snap_include_patterns data) m else m in
          let m :=
            if bool_decide (exclude_patterns m = [])
            then set_exclude_patterns (snap_exclude_patterns data) m else m in
          set_recursive (snap_recursive data) m))
      else mret tt
  end.

Definition snapshot_of (m : Manager) : Snapshot :=
  {| snap_root_dir := root_dir m;
     snap_files := files m;
     snap_directories := elements (directories m);
     snap_include_patterns := include_patterns m;
     snap_exclude_patterns := exclude_patterns m;
     snap_recursive := recursive m |}.

Definition _save_data : M World unit :=
  modify (λ w, set_storage (Some (snapshot_of (mgr w))) w).

Definition _notify_file_change (event_type src_path : string)
    (dst_path : option string) : M World unit :=
  let n := {| event_type := event_type; notice_src := src_path;
              notice_dst := dst_path |} in
  modify (log_emitted n);;
  w ← get;
  for_each (file_change_callbacks (mgr w)) (λ cb,
    try_except (invoke cb n)
      (λ e, print "Error in file change callback")).

Definition _add_file (fs : fs_node) (file_path : string) : M World unit :=
  try_except
    (let abs_path := PyPath.abspath file_path in
     match stat_file fs abs_path with
     | Some st =>
         w ← get;
         let rel_path := PyPath.relpath abs_path (root_dir (mgr w)) in
         modify (set_mgr (set_files (insert abs_path
           {| size := st_size st; created_time := st_ctime st;
              modified_time := st_mtime st; relative_path := rel_path |})));;
         _save_data
     | None => mret tt
     end)
    (λ e, print "Error adding file").




Definition add_file_change_callback (cb : callback) : M World unit :=
  w ← get;
  if bool_decide (cb_id cb ∈ cb_id <$> file_change_callbacks (mgr w)) then mret tt
  else modify (set_mgr (set_callbacks (λ l, l ++ [cb]))).

(** [list.remove]: the first occurrence goes. *)
Fixpoint remove_first (i : nat) (l : list callback) : list callback :=
  match l with
  | [] => []
  | cb :: l' => if decide (cb_id cb = i) then l' else cb :: remove_first i l'
  end.

Definition remove_file_change_callback (cb : callback) : M World unit :=
  w ← get;
  if bool_decide (cb_id cb ∈ cb_id <$> file_change_callbacks (mgr w))
  then modify (set_mgr (set_callbacks (remove_first (cb_id cb))))
  else mret tt.


(** *** [FileEventHandler]: the handlers of the watcher's events

    [on_created], [on_deleted] and [on_moved] run under the handler's
    lock, so one handler runs at a time; each is a function of the world
    it starts in.  The debugging prints of [on_deleted] are left out. *)


Definition on_deleted (event : FsEvent) : M World unit :=
  let src_path := PyPath.abspath (src_path event) in
  w ← get;
  if decide (src_path ∈ directories (mgr w)) then
    let files_to_remove :=
      filter (λ f, PyStr.startswith f src_path = true)
             (fst <$> map_to_list (files (mgr w))) in
    for_each files_to_remove (λ file_path,
      del_file file_path;;
      _notify_file_change "deleted" file_path None);;
    w ← get;
    let subdirs_to_remove :=
      filter (λ d, PyStr.startswith d src_path = true)
             (elements (directories (mgr w))) in
    for_each subdirs_to_remove (λ subdir,
      if decide (subdir ≠ src_path) then
        remove_dir subdir;;
        _notify_file_change "directory_deleted" subdir None
      else mret tt);;
    remove_dir src_path;;
    _notify_file_change "directory_deleted" src_path None;;
    _save_data
  else if decide (is_Some (files (mgr w) !! src_path)) then
    del_file src_path;;
    _notify_file_change "deleted" src_path None;;
    _save_data
  else mret tt.


Definition on_moved (fs : fs_node) (event : FsEvent) : M World unit :=
  let src_path := PyPath.abspath (src_path event) in
  let dest_path := PyPath.abspath (dest_path event) in
  w ← get;
  if decide (src_path ∈ directories (mgr w)) then
    remove_dir src_path;;
    w ← get;
    (if recursive (mgr w)
        || bool_decide (PyPath.dirname dest_path = root_dir (mgr w)) then
       if _should_include_directory (mgr w) dest_path then
         add_dir dest_path;;
         _notify_file_change "directory_moved" src_path (Some dest_path)
       else _notify_file_change "directory_deleted" src_path None
     else _notify_file_change "directory_deleted" src_path None);;
    _save_data
  else if decide (is_Some (files (mgr w) !! src_path)) then
    del_file src_path;;
    w ← get;
    (if _should_include_file (mgr w) dest_path then
       _add_file fs dest_path;;
       _notify_file_change "moved" src_path (Some dest_path)
     else _notify_file_change "deleted" src_path None);;
    _save_data
  else mret tt.

(** *** Vocabulary of the statements *)

(** The state of the subscribers after each callback of the list ran
    once, in the order of the list. *)
Definition subscribers_after (cbs : list callback) (n : Notice) (s : W) : W :=
  foldl (λ s cb, snd (cb_call cb n s)) s cbs.

Definition notice (t s : string) (d : option string) : Notice :=
  {| event_type := t; notice_src := s; notice_dst := d |}.

(** The tracked files and the tracked directories whose path starts with
    [d], in the order in which the handlers meet them. *)
Definition files_under (m : Manager) (d : string) : list string :=
  filter (λ f, PyStr.startswith f d = true) (fst <$> map_to_list (files m)).

Definition dirs_under (m : Manager) (d : string) : list string :=
  filter (λ x, PyStr.startswith x d = true) (elements (directories m)).

Definition other_dirs_under (m : Manager) (d : string) : list string :=
  filter (λ x, x ≠ d) (dirs_under m d).

(** [del f[k]] for every [k] of the list, and [ds.remove(x)] for every
    [x] of the list. *)
Definition delete_all (l : list string) (f : gmap string FileInfo)
  : gmap string FileInfo :=
  foldl (λ f k, delete k f) f l.

Definition remove_all (l : list string) (ds : gset string) : gset string :=
  foldl (λ ds x, ds ∖ {[x]}) ds l.

(** The record [_add_file] stores for a file with the given [os.stat]. *)
Definition file_info (m : Manager) (abs_path : string) (st : Stat) : FileInfo :=
  {| size := st_size st; created_time := st_ctime st;
     modified_time := st_mtime st;
     relative_path := PyPath.relpath abs_path (root_dir m) |}.

(** The world of a manager that finds on the disk what [saver] saved. *)
Definition with_snapshot_of (saver loader : World) : World :=
  set_storage (storage (snd (_save_data saver))) loader.

(** The notices a computation added to the trace of [w]. *)
Definition emitted_since (w w' : World) : list Notice :=
  drop (length (emitted w)) (emitted w').

End Subscribers.

Arguments callback : clear implicits.
Arguments Manager : clear implicits.
Arguments World : clear implicits.

End FileManager.

(** ** A small inventory used to exercise the statements *)

Module Scenario.
Import FileManager.

(** The subscribers keep the notices they were handed. *)
Definition recorder (i : nat) : callback (list Notice) :=
  {| cb_id := i; cb_call := λ n log, (Ok tt, log ++ [n]) |}.

(** A subscriber that fails on every call. *)
Definition faulty (i : nat) : callback (list Notice) :=
  {| cb_id := i; cb_call := λ n log, (Raise (Exception "boom"), log) |}.

Definition info (rel : string) : FileInfo :=
  {| size := 4; created_time := 0; modified_time := 0; relative_path := rel |}.

Definition manager0 : Manager (list Notice) :=
  {| root_dir := "/r";
     files := <["/r/a/1.txt" := info "a/1.txt"]>
              (<["/r/a/b/2.txt" := info "a/b/2.txt"]>
              (<["/r/a/c/3.txt" := info "a/c/3.txt"]>
              (<["/r/z.txt" := info "z.txt"]> ∅)));
     directories := {["/r"; "/r/a"; "/r/a/b"; "/r/a/c"]};
     include_patterns := ["*.txt"];
     exclude_patterns := [];
     recursive := true;
     file_change_callbacks := [faulty 0; recorder 1] |}.

Definition world0 : World (list Notice) :=
  {| mgr := manager0; storage := None; subscribers := [];
     calls := []; emitted := []; stdout := [] |}.

Definition deleted_a : FsEvent :=
  {| is_directory := true; src_path := "/r/a"; dest_path := "" |}.

End Scenario.

(** ** Vocabulary of the statements about the pattern engine *)

Module Rules.
Import FileManager.

(** A pattern matches a relative path: anchored (leading separator), it is
    tested against the whole path; unanchored, against every suffix of the
    path's segments. *)
Definition pattern_matches (relative_path pattern : string) : bool :=
  if PyStr.startswith pattern "/"
  then Fnmatch.fnmatch relative_path (PyStr.lstrip [PyStr.slash] pattern)
  else existsb (λ sub_path, Fnmatch.fnmatch sub_path pattern) (sub_paths relative_path).

(** An exclude pattern as it is tested: separators unified, leading
    negation markers removed. *)
Definition exclude_form (pattern : string) : string :=
  PyStr.lstrip [PyStr.bang] (unslash pattern).

(** An entry of the include list is a reinclude pattern when it starts
    with the double negation marker; it is tested without the marker. *)
Definition is_reinclude (pattern : string) : bool :=
  PyStr.startswith (unslash pattern) "!!".

Definition reinclude_form (pattern : string) : string :=
  PyStr.drop_chars 2 (unslash pattern).

(** The paths [current_path] runs through in [_should_include_directory]:
    the directory's parents, outermost first, and the directory itself. *)
Fixpoint leading_paths (path_parts : list string) (current_path : string)
  : list string :=
  match path_parts with
  | [] => []
  | part :: rest =>
      let current_path :=
        (if decide (current_path = "") then current_path
         else current_path +:+ "/") +:+ part in
      current_path :: leading_paths rest current_path
  end.

(** An exclude pattern matches a directory: with its trailing separators
    and stars removed it matches, anchored, the directory's path or,
    unanchored, the directory or one of its parents. *)
Definition dir_excluded_by (relative_path pattern : string) : bool :=
  let pattern := exclude_form pattern in
  if PyStr.startswith pattern "/"
  then Fnmatch.fnmatch relative_path
         (strip_dir_suffix (PyStr.lstrip [PyStr.slash] pattern))
  else existsb (λ p, Fnmatch.fnmatch p (strip_dir_suffix pattern))
         (leading_paths (PyStr.split PyStr.slash relative_path) "").

(** An include pattern matches the directory itself (the pattern without
    trailing separators and stars) or the form [d + "/*"]. *)
Definition dir_included_by (relative_path pattern : string) : bool :=
  Fnmatch.fnmatch relative_path (strip_dir_suffix (unslash pattern))
  || Fnmatch.fnmatch (relative_path +:+ "/*") (unslash pattern).

End Rules.

(** A manager with the rules of the precedence example. *)
Module PrecedenceScenario.
Import FileManager.

Definition manager : Manager unit :=
  {| root_dir := "/srv/data"; files := ∅; directories := {["/srv/data"]};
     include_patterns := ["*.txt"; "!!temp/keep/*"];
     exclude_patterns := ["temp/*"];
     recursive := true; file_change_callbacks := [] |}.

End PrecedenceScenario.

(** A disk with a directory [docs] that no rule mentions. *)
Module ScanScenario.
Import FileManager.

Definition st0 : Stat := {| st_size := 12; st_ctime := 100; st_mtime := 200 |}.

Definition disk : fs_node :=
  FsDir "" [FsDir "r" [FsDir "docs" [FsFile "x.py" st0; FsFile "notes.md" st0];
                       FsFile "main.py" st0;
                       FsFile "README" st0]].


End ScanScenario.

(** A move whose destination is gone from the disk when the handler runs,
    and a path that is tracked both as a file and as a directory. *)
Module MoveScenario.
Import FileManager.

Definition st0 : Stat := {| st_size := 4; st_ctime := 1; st_mtime := 2 |}.

(** [/r/b.txt] is not on the disk. *)
Definition disk : fs_node := FsDir "" [FsDir "r" [FsFile "c.txt" st0]].

Definition info (rel : string) : FileInfo :=
  {| size := 4; created_time := 1; modified_time := 2; relative_path := rel |}.

Definition world0 : World unit :=
  {| mgr := {| root_dir := "/r";
               files := {["/r/a.txt" := info "a.txt"]};
               directories := {["/r"]};
               include_patterns := ["*.txt"]; exclude_patterns := [];
               recursive := true; file_change_callbacks := [] |};
     storage := None; subscribers := tt; calls := []; emitted := []; stdout := [] |}.

Definition a_to_b : FsEvent :=
  {| is_directory := false; src_path := "/r/a.txt"; dest_path := "/r/b.txt" |}.

Definition a_to_c : FsEvent :=
  {| is_directory := false; src_path := "/r/a.txt"; dest_path := "/r/c.txt" |}.

Definition a_to_md : FsEvent :=
  {| is_directory := false; src_path := "/r/a.txt"; dest_path := "/r/a.md" |}.

(** [/r/x] is a key of the file map and a member of the directory set. *)
Definition world_both : World unit :=
  {| mgr := {| root_dir := "/r";
               files := {["/r/x" := info "x"]};
               directories := {["/r"; "/r/x"]};
               include_patterns := ["*"]; exclude_patterns := [];
               recursive := true; file_change_callbacks := [] |};
     storage := None; subscribers := tt; calls := []; emitted := []; stdout := [] |}.

Definition x_to_y : FsEvent :=
  {| is_directory := false; src_path := "/r/x"; dest_path := "/r/y" |}.

(** A tracked directory with a tracked file below it. *)
Definition world_dir : World unit :=
  {| mgr := {| root_dir := "/r";
               files := {["/r/d/f.txt" := info "d/f.txt"]};
               directories := {["/r"; "/r/d"]};
               include_patterns := ["*.txt"]; exclude_patterns := [];
               recursive := true; file_change_callbacks := [] |};
     storage := None; subscribers := tt; calls := []; emitted := []; stdout := [] |}.

Definition d_to_e : FsEvent :=
  {| is_directory := true; src_path := "/r/d"; dest_path := "/r/e" |}.

End MoveScenario.

(** A saved inventory and a manager constructed with rules of its own. *)
Module SnapshotScenario.
Import FileManager.

Definition saver : World unit :=
  {| mgr := {| root_dir := "/r";
               files := {["/r/a.txt" := MoveScenario.info "a.txt"]};
               directories := {["/r"; "/r/sub"]};
               include_patterns := ["*.txt"]; exclude_patterns := ["temp/*"];
               recursive := false; file_change_callbacks := [] |};
     storage := None; subscribers := tt; calls := []; emitted := []; stdout := [] |}.

(** As [FileManager("/r", include_patterns=["*.py"],
    exclude_patterns=["build/*"])] is before it loads. *)
Definition loader : World unit :=
  {| mgr := {| root_dir := "/r"; files := ∅; directories := ∅;
               include_patterns := ["*.py"]; exclude_patterns := ["build/*"];
               recursive := true; file_change_callbacks := [] |};
     storage := None; subscribers := tt; calls := []; emitted := []; stdout := [] |}.

(** As [FileManager("/r")] is before it loads. *)
Definition default_loader : World unit :=
  {| mgr := {| root_dir := "/r"; files := ∅; directories := ∅;
               include_patterns := ["*"]; exclude_patterns := [];
               recursive := true; file_change_callbacks := [] |};
     storage := None; subscribers := tt; calls := []; emitted := []; stdout := [] |}.


End SnapshotScenario.

(** ** The tag manager: [core/tag_manager.py] *)

Module TagManager.

Record Tag := {
  name : string;
  description : string;
  parent : option string;
}.

(** The content of [tags.json] as [_save_data] writes it. *)
Record TagData := {
  data_tags : gmap string Tag;
  data_file_tags : gmap string (list string);
}.

Record Store := {
  tags : gmap string Tag;
  file_tags : gmap string (gset string);
  tags_file : option TagData;
}.

Definition set_tags (f : gmap string Tag → gmap string Tag) (s : Store) : Store :=
  {| tags := f (tags s); file_tags := file_tags s; tags_file := tags_file s |}.

Definition set_file_tags
    (f : gmap string (gset string) → gmap string (gset string)) (s : Store) : Store :=
  {| tags := tags s; file_tags := f (file_tags s); tags_file := tags_file s |}.

Definition _load_data : M Store unit :=
  s ← get;
  match tags_file s with
  | None => mret tt
  | Some data =>
      modify (λ s, {| tags := data_tags data;
                      file_tags := list_to_set <$> data_file_tags data;
                      tags_file := tags_file s |})
  end.

Definition _save_data : M Store unit :=
  modify (λ s, {| tags := tags s; file_tags := file_tags s;
                  tags_file := Some {| data_tags := tags s;
                                       data_file_tags := elements <$> file_tags s |} |}).

(** The tag ids whose [parent] is [tag_id], in the order of the dict. *)
Definition child_tags (tg : gmap string Tag) (tag_id : string) : list string :=
  fst <$> filter (λ kv, parent (snd kv) = Some tag_id) (map_to_list tg).

(** One round of the loop over the files in [remove_tag]: the tag is
    taken out of the file's set, and the entry goes when the set is left
    empty. *)
Definition detach (tag_id file_path : string) : M Store unit :=
  s ← get;
  match file_tags s !! file_path with
  | None => raise (KeyError file_path)
  | Some ids =>
      if decide (tag_id ∈ ids) then
        modify (set_file_tags (λ ft,
          if decide (ids ∖ {[tag_id]} = ∅) then delete file_path ft
          else <[file_path := ids ∖ {[tag_id]}]> ft))
      else mret tt
  end.

(** [remove_tag]; [depth] is the recursion depth the interpreter still
    allows, and running out of it raises [RecursionError]. *)
Fixpoint remove_tag (depth : nat) (tag_id : string) : M Store unit :=
  match depth with
  | O => raise RecursionError
  | S depth' =>
      s ← get;
      if decide (is_Some (tags s !! tag_id)) then
        for_each (child_tags (tags s) tag_id) (remove_tag depth');;
        s ← get;
        for_each (fst <$> map_to_list (file_tags s)) (detach tag_id);;
        s ← get;
        match tags s !! tag_id with
        | Some _ => modify (set_tags (delete tag_id));; _save_data
        | None => raise (KeyError tag_id)
        end
      else raise (ValueError "tag does not exist")
  end.

Definition get_tag (tag_id : string) (s : Store) : option Tag := tags s !! tag_id.

Definition add_tag_to_file (file_path tag_id : string) : M Store unit :=
  s ← get;
  if decide (is_Some (tags s !! tag_id)) then
    let file_path := PyPath.normpath file_path in
    modify (set_file_tags (λ ft,
      match ft !! file_path with
      | None => <[file_path := ∅]> ft
      | Some _ => ft
      end));;
    modify (set_file_tags (λ ft,
      match ft !! file_path with
      | Some ids => <[file_path := ids ∪ {[tag_id]}]> ft
      | None => ft
      end));;
    _save_data
  else raise (ValueError "tag does not exist").

Definition remove_tag_from_file (file_path tag_id : string) : M Store unit :=
  let file_path := PyPath.normpath file_path in
  s ← get;
  match file_tags s !! file_path with
  | Some ids =>
      if decide (tag_id ∈ ids) then
        modify (set_file_tags (λ ft,
          if decide (ids ∖ {[tag_id]} = ∅) then delete file_path ft
          else <[file_path := ids ∖ {[tag_id]}]> ft));;
        _save_data
      else mret tt
  | None => mret tt
  end.

Definition get_file_tags (file_path : string) (s : Store) : gset string :=
  default ∅ (file_tags s !! PyPath.normpath file_path).

(** [sorted(result)] on strings: ascending by character code. *)
Definition sorted (l : list string) : list string := merge_sort String.le l.

Definition find_files_by_tags (tag_ids : list string) (match_all : bool)
  : M Store (list string) :=
  match tag_ids with
  | [] => mret []
  | _ =>
      s ← get;
      for_each tag_ids (λ tag_id,
        if decide (is_Some (tags s !! tag_id)) then mret tt
        else raise (ValueError "tag does not exist"));;
      let result :=
        flat_map (λ '(file_path, file_tag_ids),
          if match_all then
            if forallb (λ tag_id, bool_decide (tag_id ∈ (file_tag_ids : gset string))) tag_ids
            then [PyPath.normpath file_path] else []
          else
            if existsb (λ tag_id, bool_decide (tag_id ∈ (file_tag_ids : gset string))) tag_ids
            then [PyPath.normpath file_path] else [])
          (map_to_list (file_tags s)) in
      mret (sorted result)
  end.

(** *** Vocabulary of the statements *)

(** [c] is a tag of the store whose parent reference is [p]. *)
Definition child_of (tg : gmap string Tag) (c p : string) : Prop :=
  ∃ tag, tg !! c = Some tag ∧ parent tag = Some p.

(** [x] is [t] or a transitive descendant of [t]. *)
Definition descends (tg : gmap string Tag) (x t : string) : Prop :=
  rtc (child_of tg) x t.

(** The parent references form a forest: no tag is its own ancestor. *)
Definition acyclic (tg : gmap string Tag) : Prop :=
  ∀ x, ¬ tc (child_of tg) x x.

(** No entry of the file-tags map has an empty tag set. *)
Definition no_empty_entry (s : Store) : Prop :=
  ∀ f ids, file_tags s !! f = Some ids → ids ≠ ∅.

(** Every tag id a file refers to is a tag of the store. *)
Definition references_exist (s : Store) : Prop :=
  ∀ f ids x, file_tags s !! f = Some ids → x ∈ ids → is_Some (tags s !! x).

(** The keys of the file-tags map are normalised paths, as
    [add_tag_to_file] stores them. *)
Definition keys_normalised (s : Store) : Prop :=
  ∀ f, is_Some (file_tags s !! f) → PyPath.normpath f = f.

(** What is left of a file's tag set once the ids of [R] are detached:
    nothing when that empties a set that was not empty. *)
Definition strip (R : gset string) (ids : gset string) : option (gset string) :=
  if decide (ids ≠ ∅ ∧ ids ∖ R = ∅) then None else Some (ids ∖ R).

(** The store [s'] is [s] without the tags of [R], their ids detached
    from every file. *)
Definition removed_as (R : gset string) (s s' : Store) : Prop :=
  (∀ x, tags s' !! x = if decide (x ∈ R) then None else tags s !! x)
  ∧ (∀ f, file_tags s' !! f = file_tags s !! f ≫= strip R).

(** [tags.json] holds the store as it is. *)
Definition persisted (s : Store) : Prop :=
  tags_file s = Some {| data_tags := tags s;
                        data_file_tags := elements <$> file_tags s |}.

(** [s'] is [s] after the removal of [t]: the tags that go are [t] and
    its transitive descendants. *)
Definition removal_of (t : string) (s s' : Store) : Prop :=
  ∃ R : gset string,
    (∀ x, x ∈ R ↔ is_Some (tags s !! x) ∧ descends (tags s) x t)
    ∧ removed_as R s s'
    ∧ persisted s'.

(** A tag set satisfies a query: it holds every id of the list
    ([match_all]) or some id of the list. *)
Definition satisfies (match_all : bool) (tag_ids : list string)
    (ids : gset string) : Prop :=
  if match_all then ∀ t, t ∈ tag_ids → t ∈ ids
  else ∃ t, t ∈ tag_ids ∧ t ∈ ids.

(** The test [find_files_by_tags] applies to a file's tag set. *)
Definition selects (match_all : bool) (tag_ids : list string)
    (ids : gset string) : bool :=
  if match_all
  then forallb (λ tag_id, bool_decide (tag_id ∈ ids)) tag_ids
  else existsb (λ tag_id, bool_decide (tag_id ∈ ids)) tag_ids.

End TagManager.

(** Two small tag stores. *)
Module TagScenario.
Import TagManager.

Definition tag (n : string) (p : option string) : Tag :=
  {| name := n; description := ""; parent := p |}.

(** [work] has the child [project], which has the child [draft];
    [home] stands alone. *)
Definition forest : Store :=
  {| tags := {[ "work" := tag "Work" None;
                "project" := tag "Project" (Some "work");
                "draft" := tag "Draft" (Some "project");
                "home" := tag "Home" None ]};
     file_tags := {[ "/a.txt" := {["work"; "home"]};
                     "/b.txt" := {["project"; "draft"]};
                     "/c.txt" := {["home"]} ]};
     tags_file := None |}.

Definition depth_of (x : string) : nat :=
  if decide (x = "project") then 1 else if decide (x = "draft") then 2 else 0.

(** A store as [_load_data] accepts it from a [tags.json] in which a
    file refers to an id that is no tag. *)
Definition dangling : Store :=
  {| tags := {[ "work" := tag "Work" None ]};
     file_tags := {[ "/a.txt" := {["ghost"]} ]};
     tags_file := None |}.

End TagScenario.

(** A store with one tagged file. *)
Module LookupScenario.
Import TagManager.

Definition store : Store :=
  {| tags := {[ "red" := TagScenario.tag "Red" None;
                "blue" := TagScenario.tag "Blue" None ]};
     file_tags := {[ "/a.txt" := {["red"; "blue"]};
                     "/b.txt" := {["blue"]} ]};
     tags_file := None |}.

End LookupScenario.

(** ** The rest of the file manager: queries and what the handlers keep *)

Module Inventory.
Import FileManager.

(** [os.path.basename(p)]: what follows the last separator. *)
Definition basename (p : string) : string :=
  default "" (last (PyStr.split PyStr.slash p)).

(** [os.path.exists(p)] *)
Definition path_exists (fs : fs_node) (p : string) : bool :=
  bool_decide (is_Some (fs_find fs p)).

Section Queries.
Context {W : Type}.


(** [_match_pattern] *)
Definition _match_pattern (file_path pattern : string) : bool :=
  Fnmatch.fnmatch (basename file_path) pattern.

(** The body of the loop of [find_files] for one entry of [self.files]:
    the [continue]s, then the [append].  A pattern that is [None] or
    empty does not filter. *)
Definition find_files_keeps (fs : fs_node) (pattern : option string)
    (min_size max_size : option Z) (file_path : string) (info : FileInfo) : bool :=
  if negb (path_exists fs file_path) then false
  else if match pattern with
          | Some pat => negb (bool_decide (pat = ""))
                        && negb (Fnmatch.fnmatch (basename file_path) pat)
          | None => false
          end then false
  else if match min_size with
          | Some lo => bool_decide (size info < lo)%Z
          | None => false
          end then false
  else if match max_size with
          | Some hi => bool_decide (hi < size info)%Z
          | None => false
          end then false
  else true.

(** [find_files] *)
Definition find_files (fs : fs_node) (pattern : option string)
    (min_size max_size : option Z) (m : Manager W) : list string :=
  TagManager.sorted
    (flat_map (λ '(file_path, info),
       if find_files_keeps fs pattern min_size max_size file_path info
       then [file_path] else [])
       (map_to_list (files m))).

(** *** Vocabulary of the statements *)


(** The configuration of a manager: everything but the index. *)
Definition same_config (m m' : Manager W) : Prop :=
  root_dir m' = root_dir m
  ∧ include_patterns m' = include_patterns m
  ∧ exclude_patterns m' = exclude_patterns m
  ∧ recursive m' = recursive m
  ∧ file_change_callbacks m' = file_change_callbacks m.








(** The paths a scan of [directory] looks at: [os.walk] lists them, in
    [directory] itself or, with the recursive flag, anywhere below it.  A
    sub-directory is looked at only if, in addition, the flag is set or
    its parent is [directory]. *)
Definition visited (directory : string) (m0 : Manager W) (root : string) : Prop :=
  recursive m0 = true ∨ root = directory.





(** A computation that always returns, and whose effect on the manager
    depends on the manager only. *)
Definition index_step (m : M (World W) unit) : Prop :=
  (∀ w, ∃ w', m w = (Ok tt, w'))
  ∧ ∀ w1 w2, mgr w1 = mgr w2 → mgr (snd (m w1)) = mgr (snd (m w2)).

(** The identities of the registered callbacks, in registration order. *)
Definition callback_ids (m : Manager W) : list nat :=
  cb_id <$> file_change_callbacks m.

End Queries.




End Inventory.

(** ** More of the tag manager *)

Module Tagging.
Import TagManager.

Section CreateTag.
(** [str.lower] is left open: the statements hold of every function
    from strings to strings in its place. *)
Variable lower : string → string.

(** [name.lower().replace(' ', '-')] *)
Definition slug (name : string) : string :=
  PyStr.replace " "%char "-"%char (lower name).

(** The [while tag_id in self.tags] loop of [create_tag]; [fuel] bounds
    the number of rounds, and [None] is a loop still running when the
    fuel is spent. *)
Fixpoint fresh_id (fuel : nat) (tg : gmap string Tag) (base tag_id : string)
    (suffix : nat) : option string :=
  match fuel with
  | O => None
  | S fuel' =>
      if decide (is_Some (tg !! tag_id))
      then fresh_id fuel' tg base (base +:+ "-" +:+ pretty suffix) (S suffix)
      else Some tag_id
  end.

(** [if parent and parent not in self.tags]: the empty string is falsy. *)
Definition parent_rejected (tg : gmap string Tag) (parent : option string) : bool :=
  match parent with
  | Some p => bool_decide (p ≠ "") && bool_decide (tg !! p = None)
  | None => false
  end.

Definition create_tag (fuel : nat) (name description : string)
    (parent : option string) : M Store (option string) :=
  s ← get;
  if parent_rejected (tags s) parent
  then raise (ValueError "parent tag does not exist")
  else
    match fresh_id fuel (tags s) (slug name) (slug name) 1 with
    | None => mret None
    | Some tag_id =>
        modify (set_tags (insert tag_id
          {| name := name; description := description; parent := parent |}));;
        _save_data;;
        mret (Some tag_id)
    end.

(** The ids [create_tag] tries, in order: the slug, then the slug with
    the suffixes [-1], [-2], ... *)
Definition candidate (base : string) (k : nat) : string :=
  match k with
  | O => base
  | S _ => base +:+ "-" +:+ pretty k
  end.

End CreateTag.

(** [get_all_tags]: a copy of the tag map. *)
Definition get_all_tags (s : Store) : gmap string Tag := tags s.

(** Every parent reference names a tag of the store. *)
Definition parents_exist (tg : gmap string Tag) : Prop :=
  ∀ c p, child_of tg c p → is_Some (tg !! p).

(** The stores the operations are meant for: parent references that
    exist and form a forest, and files that refer to tags only. *)
Definition well_formed (s : Store) : Prop :=
  parents_exist (tags s) ∧ acyclic (tags s) ∧ references_exist s.

(** What [remove_tag(t)] may have done to the store by the time it ends,
    normally or not: tags were only deleted, each of them [t] or a
    descendant of [t], and none before its own children; the files' tag
    sets only lost ids, the id of every deleted tag among them, and no
    id outside the subtree of [t]. *)
Definition pruned (t : string) (s s' : Store) : Prop :=
  tags s' ⊆ tags s
  ∧ (∀ x, is_Some (tags s !! x) → tags s' !! x = None → descends (tags s) x t)
  ∧ (∀ x c, is_Some (tags s !! x) → tags s' !! x = None →
       child_of (tags s) c x → tags s' !! c = None)
  ∧ (∀ f ids', file_tags s' !! f = Some ids' →
       ∃ ids, file_tags s !! f = Some ids ∧ ids' ⊆ ids)
  ∧ (∀ f ids' x, file_tags s' !! f = Some ids' → x ∈ ids' →
       is_Some (tags s !! x) → is_Some (tags s' !! x))
  ∧ (∀ f ids x, file_tags s !! f = Some ids → x ∈ ids →
       ¬ descends (tags s) x t →
       ∃ ids', file_tags s' !! f = Some ids' ∧ x ∈ ids').

(** The two ways [remove_tag] ends on a tag: out of recursion depth, or
    with a normal return, and then the tag was on no parent cycle. *)
Definition overflows_or_returns (depth : nat) (t : string) (s : Store) : Prop :=
  ∃ s',
    remove_tag depth t s = (Raise RecursionError, s')
    ∨ (remove_tag depth t s = (Ok tt, s') ∧ ¬ tc (child_of (tags s)) t t).

(** A [TagManager] over a directory without [tags.json]. *)
Definition empty_store : Store :=
  {| tags := ∅; file_tags := ∅; tags_file := None |}.

(** The store after [create_tag("", "", "")] on a new manager: the one
    tag names itself as its parent. *)
Definition self_parent : Store :=
  {| tags := {[ "" := {| name := ""; description := ""; parent := Some "" |} ]};
     file_tags := ∅;
     tags_file := Some {| data_tags :=
                            {[ "" := {| name := ""; description := "";
                                        parent := Some "" |} ]};
                          data_file_tags := ∅ |} |}.

(** Lower-casing of the letters A to Z. *)
Definition lower_char (c : ascii) : ascii :=
  let n := nat_of_ascii c in
  if (65 <=? n) && (n <=? 90) then ascii_of_nat (n + 32) else c.

Fixpoint ascii_lower (s : string) : string :=
  match s with
  | EmptyString => EmptyString
  | String c s' => String (lower_char c) (ascii_lower s')
  end.

End Tagging.

(** ** Delivery to callbacks that reach back into the registry *)

Module Delivery.
Import FileManager.

(** How the call of a registered callable ends: it returns, it raises an
    exception of class [Exception], or it raises one outside that class
    ([SystemExit], [KeyboardInterrupt], [GeneratorExit]). *)
Inductive ending :=
| Returns
| RaisesException (msg : string)
| RaisesBaseException (name : string).

(** The calls a callable can make on the manager's registry while it
    runs: [add_file_change_callback(s)] and
    [remove_file_change_callback(f)], [f] given by its identity. *)
Inductive registry_call (S : Type) :=
| Register (s : S)
| Unregister (id : nat).
Arguments Register {S} s.
Arguments Unregister {S} id.

Section Reentrant.

(** [W] is whatever state the registered callables own. *)
Context {W : Type}.

(** A registered callable: its identity, and its body, which makes calls
    on the registry, ends in one of the three ways and may update the
    state it owns. *)
#[warnings="-register-all"] Inductive subscriber := Subscriber {
  sub_id : nat;
  sub_call : Notice → W → list (registry_call subscriber) * ending * W;
}.

(** The list [file_change_callbacks], the state of the callables, the
    ghost trace of the invocations, oldest first, and the standard
    output. *)
Record Hub := {
  registry : list subscriber;
  owned : W;
  invoked : list (nat * Notice);
  printed : list string;
}.

Definition add_file_change_callback (s : subscriber) (l : list subscriber)
  : list subscriber :=
  if bool_decide (sub_id s ∈ sub_id <$> l) then l else l ++ [s].

(** [list.remove]: the first occurrence goes. *)
Fixpoint remove_first (i : nat) (l : list subscriber) : list subscriber :=
  match l with
  | [] => []
  | s :: l' => if decide (sub_id s = i) then l' else s :: remove_first i l'
  end.

Definition remove_file_change_callback (i : nat) (l : list subscriber)
  : list subscriber :=
  if bool_decide (i ∈ sub_id <$> l) then remove_first i l else l.

Definition registry_step (l : list subscriber) (c : registry_call subscriber)
  : list subscriber :=
  match c with
  | Register s => add_file_change_callback s l
  | Unregister i => remove_file_change_callback i l
  end.

(** [callback(event_type, src_path, dst_path)]: the list the loop runs
    over is the one the callable's registry calls change in place. *)
Definition invoke (s : subscriber) (n : Notice) (h : Hub) : ending * Hub :=
  let '(cs, e, st) := sub_call s n (owned h) in
  (e, {| registry := foldl registry_step (registry h) cs;
         owned := st;
         invoked := invoked h ++ [(sub_id s, n)];
         printed := printed h |}).

(** How a delivery ends: the loop ran off the list, an exception outside
    [Exception] left it, or (in the model only) the fuel was spent while
    the list kept growing. *)
Inductive outcome :=
| Delivered
| Escaped (name : string)
| Unfinished.

(** The loop of [_notify_file_change]: [for callback in
    self.file_change_callbacks] reads the live list at the index [i] and
    stops when [i] is past its end; [except Exception] catches what is of
    that class, prints, and goes on. *)
Fixpoint deliver (fuel i : nat) (n : Notice) (h : Hub) : outcome * Hub :=
  match fuel with
  | O => (Unfinished, h)
  | S fuel' =>
      match registry h !! i with
      | None => (Delivered, h)
      | Some s =>
          let '(e, h') := invoke s n h in
          match e with
          | Returns => deliver fuel' (S i) n h'
          | RaisesException _ =>
              deliver fuel' (S i) n
                {| registry := registry h'; owned := owned h';
                   invoked := invoked h';
                   printed := printed h' ++ ["Error in file change callback"] |}
          | RaisesBaseException name => (Escaped name, h')
          end
      end
  end.

Definition _notify_file_change (fuel : nat) (event_type src_path : string)
    (dst_path : option string) (h : Hub) : outcome * Hub :=
  deliver fuel 0 (notice event_type src_path dst_path) h.

(** *** Vocabulary of the statements *)







End Reentrant.






End Delivery.

(** A directory with siblings whose names start with its name: [/r/a]
    holds three tracked files and two tracked sub-directories; next to
    it are the file [/r/a.txt] and the directory [/r/a2] with one
    file. *)
Module SiblingScenario.
Import FileManager.

Definition world0 : World unit :=
  {| mgr := {| root_dir := "/r";
               files := {[ "/r/a/1.txt" := Scenario.info "a/1.txt";
                           "/r/a/2.txt" := Scenario.info "a/2.txt";
                           "/r/a/s1/3.txt" := Scenario.info "a/s1/3.txt";
                           "/r/a.txt" := Scenario.info "a.txt";
                           "/r/a2/x.txt" := Scenario.info "a2/x.txt" ]};
               directories := {["/r"; "/r/a"; "/r/a/s1"; "/r/a/s2"; "/r/a2"]};
               include_patterns := ["*"]; exclude_patterns := [];
               recursive := true; file_change_callbacks := [] |};
     storage := None; subscribers := tt; calls := []; emitted := []; stdout := [] |}.

Definition deleted_a : FsEvent :=
  {| is_directory := true; src_path := "/r/a"; dest_path := "" |}.

(** The path [p] is [d] or lies below it: the segments of [d] are the
    first segments of [p]. *)
Definition inside (d p : string) : bool :=
  bool_decide (PyStr.split PyStr.slash d `prefix_of` PyStr.split PyStr.slash p).

End SiblingScenario.

(** * Properties *)

Import FileManager.

(** ** Running monadic code *)

Lemma bind_run {St A B} (m : M St A) (k : A → M St B) (s : St) :
  (m ≫= k) s =
  match m s with
  | (Ok a, s') => k a s'
  | (Raise e, s') => (Raise e, s')
  end.
Proof. reflexivity. Qed.

Lemma bind_ok {St A B} (m : M St A) (k : A → M St B) (s s' : St) (a : A) :
  m s = (Ok a, s') → (m ≫= k) s = k a s'.
Proof. intros H. rewrite bind_run, H. reflexivity. Qed.

Lemma for_each_app {St X} (l1 l2 : list X) (body : X → M St unit) (s s1 : St) :
  for_each l1 body s = (Ok tt, s1) →
  for_each (l1 ++ l2) body s = for_each l2 body s1.
Proof.
  revert s. induction l1 as [|x l1 IH]; intros s H; simpl in *.
  - injection H as <-. reflexivity.
  - rewrite bind_run in H |- *.
    destruct (body x s) as [[[]|e] s0]; [|discriminate].
    apply IH, H.
Qed.

(** ** Notification *)

Section NotifyFacts.
Context {W : Type}.
Implicit Types (w : World W) (cb : callback W) (n : Notice).

Lemma delivery_runs cb n w :
  ∃ w',
    try_except (invoke cb n) (λ e, print "Error in file change callback") w
    = (Ok tt, w')
    ∧ mgr w' = mgr w
    ∧ storage w' = storage w
    ∧ emitted w' = emitted w
    ∧ calls w' = calls w ++ [(cb_id cb, n)]
    ∧ subscribers w' = snd (cb_call cb n (subscribers w)).
Proof.
  unfold try_except, invoke.
  destruct (cb_call cb n (subscribers w)) as [[[]|e] s1]; simpl;
    eexists; repeat split.
Qed.

Lemma callback_loop_runs (cbs : list (callback W)) n w :
  ∃ w',
    for_each cbs (λ cb,
      try_except (invoke cb n) (λ e, print "Error in file change callback")) w
    = (Ok tt, w')
    ∧ mgr w' = mgr w
    ∧ storage w' = storage w
    ∧ emitted w' = emitted w
    ∧ calls w' = calls w ++ ((λ cb, (cb_id cb, n)) <$> cbs)
    ∧ subscribers w' = subscribers_after cbs n (subscribers w).
Proof.
  revert w. induction cbs as [|cb cbs IH]; intros w.
  - exists w. simpl. rewrite app_nil_r. repeat split.
  - simpl. rewrite bind_run.
    destruct (delivery_runs cb n w) as (w1 & -> & Hm1 & Hst1 & Hem1 & Hc1 & Hs1).
    destruct (IH w1) as (w' & Hrun & Hm & Hst & Hem & Hc & Hs).
    exists w'. rewrite Hrun, Hm, Hst, Hem, Hc, Hs, Hm1, Hst1, Hem1, Hc1, Hs1.
    rewrite <- app_assoc. repeat split.
Qed.

Lemma notify_runs (t s : string) (d : option string) w :
  ∃ w',
    _notify_file_change t s d w = (Ok tt, w')
    ∧ mgr w' = mgr w
    ∧ storage w' = storage w
    ∧ emitted w' = emitted w ++ [notice t s d]
    ∧ calls w' = calls w ++
        ((λ cb, (cb_id cb, notice t s d)) <$> file_change_callbacks (mgr w))
    ∧ subscribers w' =
        subscribers_after (file_change_callbacks (mgr w)) (notice t s d) (subscribers w).
Proof.
  unfold _notify_file_change.
  destruct (callback_loop_runs (file_change_callbacks (mgr w)) (notice t s d)
              (log_emitted (notice t s d) w))
    as (w' & Hrun & Hm & Hst & Hem & Hc & Hs).
  exists w'. split; [exact Hrun|]. simpl in *. repeat split; assumption.
Qed.

End NotifyFacts.

(** ** Cascading removal of a directory *)

Lemma startswith_refl (s : string) : PyStr.startswith s s = true.
Proof. induction s as [|c s IH]; simpl; [done|]. by rewrite decide_True. Qed.

Section CascadeFacts.
Context {W : Type}.
Implicit Types (w : World W) (m : Manager W).

Lemma del_file_runs k w :
  is_Some (files (mgr w) !! k) →
  del_file k w = (Ok tt, set_mgr (set_files (delete k)) w).
Proof.
  intros [v Hv]. unfold del_file. rewrite bind_run. simpl. by rewrite Hv.
Qed.

Lemma remove_dir_runs d w :
  d ∈ directories (mgr w) →
  remove_dir d w = (Ok tt, set_mgr (set_directories (λ ds, ds ∖ {[d]})) w).
Proof.
  intros Hd. unfold remove_dir. rewrite bind_run. simpl. by rewrite decide_True.
Qed.

Lemma lookup_delete_all l (f : gmap string FileInfo) p :
  delete_all l f !! p = if bool_decide (p ∈ l) then None else f !! p.
Proof.
  revert f. unfold delete_all.
  induction l as [|k l IH]; intros f; cbn [foldl].
  - case_bool_decide; [set_solver|done].
  - rewrite IH. destruct (decide (p = k)) as [->|Hne].
    + rewrite lookup_delete_eq.
      repeat case_bool_decide; set_solver.
    + rewrite lookup_delete_ne by done.
      repeat case_bool_decide; set_solver.
Qed.

Lemma file_loop_runs (l : list string) w :
  NoDup l →
  (∀ k, k ∈ l → is_Some (files (mgr w) !! k)) →
  ∃ w',
    for_each l (λ file_path,
      del_file file_path;; _notify_file_change "deleted" file_path None) w
    = (Ok tt, w')
    ∧ mgr w' = set_files (delete_all l) (mgr w)
    ∧ emitted w' = emitted w ++ ((λ p, notice "deleted" p None) <$> l).
Proof.
  revert w. induction l as [|k l IH]; intros w Hnd Hin.
  - exists w. simpl. rewrite app_nil_r. by destruct w as [[]].
  - apply NoDup_cons in Hnd as [Hk Hnd]. simpl.
    rewrite bind_run, bind_run.
    rewrite del_file_runs by (apply Hin; set_solver).
    destruct (notify_runs "deleted" k None (set_mgr (set_files (delete k)) w))
      as (w1 & -> & Hm1 & _ & Hem1 & _).
    destruct (IH w1 Hnd) as (w' & Hrun & Hm & Hem).
    { intros k' Hk'. rewrite Hm1. simpl. rewrite lookup_delete_ne by set_solver.
      apply Hin. set_solver. }
    exists w'. rewrite Hrun, Hm, Hem, Hm1, Hem1. simpl.
    rewrite <- app_assoc. done.
Qed.

Lemma elem_of_remove_all l (ds : gset string) p :
  p ∈ remove_all l ds ↔ p ∈ ds ∧ p ∉ l.
Proof.
  revert ds. induction l as [|x l IH]; intros ds; unfold remove_all in *; simpl.
  - set_solver.
  - rewrite IH. set_solver.
Qed.

Lemma subdir_loop_runs (src : string) (l : list string) w :
  NoDup l →
  (∀ x, x ∈ l → x ∈ directories (mgr w)) →
  ∃ w',
    for_each l (λ subdir,
      if decide (subdir ≠ src) then
        remove_dir subdir;; _notify_file_change "directory_deleted" subdir None
      else mret tt) w
    = (Ok tt, w')
    ∧ mgr w' = set_directories (remove_all (filter (λ x, x ≠ src) l)) (mgr w)
    ∧ emitted w' = emitted w ++
        ((λ p, notice "directory_deleted" p None) <$> filter (λ x, x ≠ src) l).
Proof.
  revert w. induction l as [|x l IH]; intros w Hnd Hin.
  - exists w. simpl. rewrite app_nil_r. by destruct w as [[]].
  - apply NoDup_cons in Hnd as [Hx Hnd]. simpl. rewrite bind_run.
    rewrite filter_cons. destruct (decide (x ≠ src)) as [Hne|Heq].
    + rewrite bind_run. rewrite remove_dir_runs by (apply Hin; set_solver).
      destruct (notify_runs "directory_deleted" x None
                  (set_mgr (set_directories (λ ds, ds ∖ {[x]})) w))
        as (w1 & -> & Hm1 & _ & Hem1 & _).
      destruct (IH w1 Hnd) as (w' & Hrun & Hm & Hem).
      { intros y Hy. rewrite Hm1. simpl.
        apply elem_of_difference. split; [apply Hin; set_solver|set_solver]. }
      exists w'. rewrite Hrun, Hm, Hem, Hm1, Hem1. simpl.
      rewrite <- app_assoc. done.
    + destruct (IH w Hnd) as (w' & Hrun & Hm & Hem).
      { intros y Hy. apply Hin. set_solver. }
      exists w'. simpl. rewrite Hrun, Hm, Hem. done.
Qed.

End CascadeFacts.

Section CascadeTheorem.
Context {W : Type}.
Implicit Types (w : World W).

Lemma on_deleted_directory_runs (event : FsEvent) w :
  let d := PyPath.abspath (src_path event) in
  d ∈ directories (mgr w) →
  ∃ w',
    on_deleted event w = (Ok tt, w')
    ∧ mgr w' =
        set_directories (λ ds, remove_all (other_dirs_under (mgr w) d) ds ∖ {[d]})
          (set_files (delete_all (files_under (mgr w) d)) (mgr w))
    ∧ emitted w' = emitted w
        ++ ((λ p, notice "deleted" p None) <$> files_under (mgr w) d)
        ++ ((λ p, notice "directory_deleted" p None) <$> other_dirs_under (mgr w) d)
        ++ [notice "directory_deleted" d None].
Proof.
  intros d Hd. unfold on_deleted. fold d.
  rewrite bind_run. simpl. rewrite decide_True by exact Hd.
  rewrite bind_run.
  destruct (file_loop_runs (files_under (mgr w) d) w) as (w1 & Hrun1 & Hm1 & Hem1).
  { apply NoDup_filter, NoDup_fst_map_to_list. }
  { intros k [_ Hk]%list_elem_of_filter.
    apply list_elem_of_fmap in Hk as [[k' v] [-> Hkv]].
    apply elem_of_map_to_list in Hkv. by exists v. }
  unfold files_under in Hrun1 at 1. rewrite Hrun1.
  rewrite bind_run. simpl. rewrite bind_run.
  assert (Hds : directories (mgr w1) = directories (mgr w)) by (by rewrite Hm1).
  rewrite Hds.
  destruct (subdir_loop_runs d (dirs_under (mgr w) d) w1) as (w2 & Hrun2 & Hm2 & Hem2).
  { apply NoDup_filter, NoDup_elements. }
  { intros x [_ Hx]%list_elem_of_filter. rewrite Hds. by apply elem_of_elements. }
  unfold dirs_under in Hrun2 at 1. rewrite Hrun2.
  rewrite bind_run.
  rewrite remove_dir_runs.
  2:{ rewrite Hm2. simpl. rewrite Hds. apply elem_of_remove_all. split; [done|].
      intros [Hne _]%list_elem_of_filter. done. }
  rewrite bind_run.
  destruct (notify_runs "directory_deleted" d None
              (set_mgr (set_directories (λ ds, ds ∖ {[d]})) w2))
    as (w3 & -> & Hm3 & _ & Hem3 & _).
  eexists. split; [reflexivity|]. simpl.
  rewrite Hm3, Hem3. simpl. rewrite Hm2, Hem2, Hm1, Hem1. simpl.
  rewrite <- !app_assoc. done.
Qed.

End CascadeTheorem.

Section CascadeClaim.
Context {W : Type}.
Implicit Types (w : World W).

Lemma files_under_spec (m : Manager W) d p :
  p ∈ files_under m d ↔ is_Some (files m !! p) ∧ PyStr.startswith p d = true.
Proof.
  unfold files_under. rewrite list_elem_of_filter, list_elem_of_fmap. split.
  - intros [Hp [[k v] [-> Hkv]]]. apply elem_of_map_to_list in Hkv. eauto.
  - intros [[v Hv] Hp]. split; [done|]. exists (p, v). split; [done|].
    by apply elem_of_map_to_list.
Qed.

Lemma other_dirs_under_spec (m : Manager W) d p :
  p ∈ other_dirs_under m d ↔
  p ∈ directories m ∧ PyStr.startswith p d = true ∧ p ≠ d.
Proof.
  unfold other_dirs_under, dirs_under.
  rewrite !list_elem_of_filter, elem_of_elements. tauto.
Qed.

(** The cascade of [on_deleted] by string prefix.  A [Deleted] event on
    a tracked directory [d] returns, after one [deleted] notice for every
    tracked file whose path starts with [d], one [directory_deleted]
    notice for every other tracked directory whose path starts with [d],
    and a last [directory_deleted] notice for [d] itself.  Afterwards
    the index holds exactly the entries whose path does not start with
    [d]. *)
Theorem on_deleted_directory_cascade (event : FsEvent) w :
  let d := PyPath.abspath (src_path event) in
  d ∈ directories (mgr w) →
  ∃ w',
    on_deleted event w = (Ok tt, w')
    ∧ NoDup (files_under (mgr w) d)
    ∧ NoDup (other_dirs_under (mgr w) d)
    ∧ (∀ p, p ∈ files_under (mgr w) d ↔
            is_Some (files (mgr w) !! p) ∧ PyStr.startswith p d = true)
    ∧ (∀ p, p ∈ other_dirs_under (mgr w) d ↔
            p ∈ directories (mgr w) ∧ PyStr.startswith p d = true ∧ p ≠ d)
    ∧ emitted_since w w' =
        ((λ p, notice "deleted" p None) <$> files_under (mgr w) d)
        ++ ((λ p, notice "directory_deleted" p None) <$> other_dirs_under (mgr w) d)
        ++ [notice "directory_deleted" d None]
    ∧ length (emitted_since w w') =
        length (files_under (mgr w) d) + length (other_dirs_under (mgr w) d) + 1
    ∧ (∀ p, files (mgr w') !! p =
            if PyStr.startswith p d then None else files (mgr w) !! p)
    ∧ (∀ p, p ∈ directories (mgr w') ↔
            p ∈ directories (mgr w) ∧ PyStr.startswith p d = false)
    ∧ (length (files_under (mgr w) d) = 3 →
       length (other_dirs_under (mgr w) d) = 2 →
       length (emitted_since w w') = 6).
Proof.
  intros d Hd.
  destruct (on_deleted_directory_runs event w Hd) as (w' & Hrun & Hm & Hem).
  fold d in Hm, Hem.
  assert (Hsince : emitted_since w w' =
        ((λ p, notice "deleted" p None) <$> files_under (mgr w) d)
        ++ ((λ p, notice "directory_deleted" p None) <$> other_dirs_under (mgr w) d)
        ++ [notice "directory_deleted" d None]).
  { unfold emitted_since. rewrite Hem. by rewrite drop_app_length. }
  assert (Hlen : length (emitted_since w w') =
        length (files_under (mgr w) d) + length (other_dirs_under (mgr w) d) + 1).
  { rewrite Hsince, !length_app, !length_fmap. simpl. lia. }
  exists w'. split; [exact Hrun|].
  split; [apply NoDup_filter, NoDup_fst_map_to_list|].
  split; [apply NoDup_filter, NoDup_filter, NoDup_elements|].
  split; [apply files_under_spec|].
  split; [apply other_dirs_under_spec|].
  split; [exact Hsince|]. split; [exact Hlen|].
  split; [|split].
  - intros p. rewrite Hm. simpl. rewrite lookup_delete_all.
    destruct (PyStr.startswith p d) eqn:Hp.
    + case_bool_decide as Hin; [done|].
      destruct (files (mgr w) !! p) eqn:Hf; [|done].
      exfalso. apply Hin, files_under_spec. eauto.
    + case_bool_decide as Hin; [|done].
      apply files_under_spec in Hin as [_ Hin]. congruence.
  - intros p. rewrite Hm. simpl.
    rewrite elem_of_difference, elem_of_remove_all, other_dirs_under_spec.
    rewrite elem_of_singleton. split.
    + intros [[Hp Hno] Hne]. split; [done|].
      destruct (PyStr.startswith p d) eqn:Hs; [|done]. exfalso. by apply Hno.
    + intros [Hp Hs]. split; [split; [done|]|].
      * intros (_ & Hs' & _). congruence.
      * intros ->. rewrite startswith_refl in Hs. done.
  - intros H3 H2. rewrite Hlen, H3, H2. done.
Qed.

End CascadeClaim.

Lemma on_deleted_directory_cascade_witness :
  PyPath.abspath (src_path Scenario.deleted_a)
    ∈ directories (mgr Scenario.world0)
  ∧ ∃ w',
      on_deleted Scenario.deleted_a Scenario.world0 = (Ok tt, w')
      ∧ length (emitted_since Scenario.world0 w') = 6
      ∧ files (mgr w') !! "/r/a/b/2.txt" = None
      ∧ is_Some (files (mgr w') !! "/r/z.txt").
Proof.
  assert (Hd : PyPath.abspath (src_path Scenario.deleted_a)
                 ∈ directories (mgr Scenario.world0)).
  { vm_compute. reflexivity. }
  split; [exact Hd|].
  destruct (on_deleted_directory_cascade Scenario.deleted_a Scenario.world0 Hd)
    as (w' & Hrun & _ & _ & _ & _ & _ & _ & Hfiles & _ & Hsix).
  exists w'. split; [exact Hrun|]. split; [|split].
  - apply Hsix; vm_compute; reflexivity.
  - rewrite Hfiles. reflexivity.
  - rewrite Hfiles. vm_compute. eauto.
Defined.

(** C1 (code bug).  [on_deleted] selects what goes with a deleted
    directory by [str.startswith] on the path strings, not by
    containment.  The tracked directory [/r/a] contains exactly three
    tracked files and two tracked sub-directories; a [Deleted] event for
    it emits nine notices, not six, and removes from the index the
    sibling file [/r/a.txt], the sibling directory [/r/a2] and the file
    [/r/a2/x.txt], none of which is in [/r/a]. *)
Theorem on_deleted_drops_siblings :
  "/r/a" ∈ directories (mgr SiblingScenario.world0)
  ∧ length (filter (λ p, SiblingScenario.inside "/r/a" p = true)
              (fst <$> map_to_list (files (mgr SiblingScenario.world0)))) = 3
  ∧ length (filter (λ p, SiblingScenario.inside "/r/a" p = true ∧ p ≠ "/r/a")
              (elements (directories (mgr SiblingScenario.world0)))) = 2
  ∧ SiblingScenario.inside "/r/a" "/r/a.txt" = false
  ∧ SiblingScenario.inside "/r/a" "/r/a2" = false
  ∧ SiblingScenario.inside "/r/a" "/r/a2/x.txt" = false
  ∧ ∃ w',
      on_deleted SiblingScenario.deleted_a SiblingScenario.world0 = (Ok tt, w')
      ∧ length (emitted_since SiblingScenario.world0 w') = 9
      ∧ files (mgr w') = ∅
      ∧ directories (mgr w') = {["/r"]}.
Proof.
  split; [vm_compute; reflexivity|].
  split; [vm_compute; reflexivity|].
  split; [vm_compute; reflexivity|].
  split; [vm_compute; reflexivity|].
  split; [vm_compute; reflexivity|].
  split; [vm_compute; reflexivity|].
  eexists. split; [vm_compute; reflexivity|].
  split; [vm_compute; reflexivity|].
  split; vm_compute; reflexivity.
Qed.

(** ** The pattern engine *)

Import Rules.

Lemma exclude_loop_spec rel (patterns : list string) (b : bool) :
  exclude_loop rel patterns b =
  b || existsb (λ e, pattern_matches rel (exclude_form e)) patterns.
Proof.
  revert b. induction patterns as [|e patterns IH]; intros b; simpl.
  - by rewrite orb_false_r.
  - unfold pattern_matches at 1. fold (exclude_form e).
    destruct (PyStr.startswith (exclude_form e) "/"); simpl.
    + destruct (Fnmatch.fnmatch rel _); simpl; [by rewrite orb_true_r|apply IH].
    + rewrite IH. destruct (existsb _ (sub_paths rel)); simpl.
      * by rewrite orb_true_r.
      * done.
Qed.

Lemma match_loop_spec rel (patterns : list string) :
  match_loop rel patterns = existsb (pattern_matches rel) patterns.
Proof.
  induction patterns as [|p patterns IH]; simpl; [done|].
  unfold pattern_matches at 1.
  destruct (PyStr.startswith p "/"); simpl.
  - destruct (Fnmatch.fnmatch rel _); simpl; [done|apply IH].
  - destruct (existsb _ (sub_paths rel)); simpl; [done|apply IH].
Qed.

Lemma split_include_reinclude (patterns : list string) :
  fst (split_include patterns) = reinclude_form <$> filter (λ p, is_reinclude p = true) patterns.
Proof.
  induction patterns as [|p patterns IH]; simpl; [done|].
  destruct (split_include patterns) as [re no]. simpl in IH.
  rewrite filter_cons.
  destruct (decide (is_reinclude p = true)) as [Hp|Hp]; unfold is_reinclude in Hp.
  - rewrite Hp. simpl. by rewrite IH.
  - apply not_true_is_false in Hp. rewrite Hp. done.
Qed.

Lemma existsb_true_iff {A} (f : A → bool) (l : list A) :
  existsb f l = true ↔ ∃ x, x ∈ l ∧ f x = true.
Proof.
  rewrite existsb_exists. split; intros (x & Hx & Hf); exists x;
    (split; [by apply list_elem_of_In|done]).
Qed.

Lemma existsb_false_iff {A} (f : A → bool) (l : list A) :
  existsb f l = false ↔ ∀ x, x ∈ l → f x = false.
Proof.
  split.
  - intros H x Hx. destruct (f x) eqn:Hf; [|done].
    rewrite <- H. symmetry. apply existsb_true_iff. eauto.
  - intros H. destruct (existsb f l) eqn:He; [|done].
    apply existsb_true_iff in He as (x & Hx & Hf). rewrite H in Hf; done.
Qed.

Lemma include_file_decision_excluded incl excl rel :
  (∃ e, e ∈ excl ∧ pattern_matches rel (exclude_form e) = true) →
  include_file_decision incl excl rel =
  existsb (λ r, pattern_matches rel (reinclude_form r))
          (filter (λ p, is_reinclude p = true) incl).
Proof.
  intros Hex. unfold include_file_decision.
  pose proof (split_include_reinclude incl) as Hre.
  destruct (split_include incl) as [re no]. simpl in Hre. subst re.
  rewrite exclude_loop_spec. simpl.
  apply existsb_true_iff in Hex. rewrite Hex.
  rewrite match_loop_spec.
  induction (filter _ incl) as [|r l IH]; simpl; [done|]. by f_equal.
Qed.

(** C2.  When some exclude pattern matches the relative path [p] of a file
    (anchored patterns against the whole path, unanchored ones against
    every suffix of its segments), the file is included if some reinclude
    pattern, without its double negation marker, matches [p] as well, and
    it is excluded if no reinclude pattern matches, whatever the other
    entries of the include list are.  With exclude [temp/*] and reinclude
    [!!temp/keep/*], [temp/keep/file.txt] is included and
    [temp/other/file.txt] is excluded. *)
Theorem reinclude_overrides_exclude :
  (∀ (incl excl : list string) (p : string),
     (∃ e, e ∈ excl ∧ pattern_matches p (exclude_form e) = true) →
     ((∃ r, r ∈ incl ∧ is_reinclude r = true
            ∧ pattern_matches p (reinclude_form r) = true) →
      include_file_decision incl excl p = true)
     ∧ ((∀ r, r ∈ incl → is_reinclude r = true →
              pattern_matches p (reinclude_form r) = false) →
        include_file_decision incl excl p = false))
  ∧ include_file_decision ["!!temp/keep/*"] ["temp/*"] "temp/keep/file.txt" = true
  ∧ include_file_decision ["!!temp/keep/*"] ["temp/*"] "temp/other/file.txt" = false
  ∧ _should_include_file PrecedenceScenario.manager
      "/srv/data/temp/keep/file.txt" = true
  ∧ _should_include_file PrecedenceScenario.manager
      "/srv/data/temp/other/file.txt" = false.
Proof.
  split; [|repeat split; vm_compute; reflexivity].
  intros incl excl p Hex.
  rewrite (include_file_decision_excluded incl excl p Hex). split.
  - intros (r & Hr & Hre & Hm). apply existsb_true_iff.
    exists r. split; [|done]. by apply list_elem_of_filter.
  - intros Hno. apply existsb_false_iff.
    intros r [Hre Hr]%list_elem_of_filter. by apply Hno.
Qed.

Lemma reinclude_overrides_exclude_witness :
  (∃ e, e ∈ ["temp/*"] ∧ pattern_matches "temp/keep/file.txt" (exclude_form e) = true)
  ∧ (∃ r, r ∈ ["*.txt"; "!!temp/keep/*"] ∧ is_reinclude r = true
          ∧ pattern_matches "temp/keep/file.txt" (reinclude_form r) = true)
  ∧ include_file_decision ["*.txt"; "!!temp/keep/*"] ["temp/*"]
      "temp/keep/file.txt" = true.
Proof.
  assert (Hex : ∃ e, e ∈ ["temp/*"]
                     ∧ pattern_matches "temp/keep/file.txt" (exclude_form e) = true).
  { exists "temp/*". split; [apply list_elem_of_here|vm_compute; reflexivity]. }
  assert (Hre : ∃ r, r ∈ ["*.txt"; "!!temp/keep/*"] ∧ is_reinclude r = true
                     ∧ pattern_matches "temp/keep/file.txt" (reinclude_form r) = true).
  { exists "!!temp/keep/*".
    split; [apply list_elem_of_further, list_elem_of_here|].
    split; vm_compute; reflexivity. }
  split; [exact Hex|]. split; [exact Hre|].
  exact (proj1 (proj1 reinclude_overrides_exclude _ _ _ Hex) Hre).
Defined.

Lemma parents_loop_spec (parts : list string) (current_path pattern : string) :
  parents_loop parts current_path pattern =
  existsb (λ p, Fnmatch.fnmatch p pattern) (leading_paths parts current_path).
Proof.
  revert current_path. induction parts as [|part parts IH]; intros cp; simpl; [done|].
  destruct (Fnmatch.fnmatch _ pattern); simpl; [done|apply IH].
Qed.

Lemma include_rescues_spec rel (incl : list string) :
  include_rescues rel incl = existsb (dir_included_by rel) incl.
Proof.
  induction incl as [|i incl IH]; simpl; [done|]. unfold dir_included_by at 1.
  destruct (Fnmatch.fnmatch rel _); simpl; [done|].
  destruct (Fnmatch.fnmatch _ (unslash i)); simpl; [done|apply IH].
Qed.

Lemma dir_exclude_loop_spec rel (incl excl : list string) :
  dir_exclude_loop rel incl excl =
  if existsb (dir_excluded_by rel) excl
  then Some (existsb (dir_included_by rel) incl) else None.
Proof.
  induction excl as [|e excl IH]; simpl; [done|].
  unfold dir_excluded_by at 1. fold (exclude_form e). cbv zeta.
  destruct (PyStr.startswith (exclude_form e) "/"); simpl.
  - destruct (Fnmatch.fnmatch rel _); simpl; [by rewrite include_rescues_spec|apply IH].
  - rewrite parents_loop_spec.
    destruct (existsb _ (leading_paths _ _)); simpl;
      [by rewrite include_rescues_spec|apply IH].
Qed.

Lemma include_directory_decision_spec (incl excl : list string) rel :
  include_directory_decision incl excl rel =
  negb (existsb (dir_excluded_by rel) excl
        && negb (existsb (dir_included_by rel) incl)).
Proof.
  unfold include_directory_decision. rewrite dir_exclude_loop_spec.
  destruct (existsb (dir_excluded_by rel) excl); simpl.
  - by rewrite negb_involutive.
  - by destruct (dir_include_loop rel incl).
Qed.


(** ** Moves *)

Section MoveFacts.
Context {W : Type}.
Implicit Types (w : World W).

Lemma emitted_since_one w w' (n : Notice) :
  emitted w' = emitted w ++ [n] → emitted_since w w' = [n].
Proof. intros H. unfold emitted_since. by rewrite H, drop_app_length. Qed.

Lemma _add_file_runs (fs : fs_node) (file_path : string) w :
  ∃ w',
    _add_file fs file_path w = (Ok tt, w')
    ∧ emitted w' = emitted w
    ∧ mgr w' =
        match stat_file fs (PyPath.abspath file_path) with
        | Some st =>
            set_files (insert (PyPath.abspath file_path)
                         (file_info (mgr w) (PyPath.abspath file_path) st)) (mgr w)
        | None => mgr w
        end.
Proof.
  unfold _add_file, try_except.
  destruct (stat_file fs (PyPath.abspath file_path)) as [st|]; simpl.
  - eexists. repeat split.
  - eexists. repeat split.
Qed.

Lemma should_include_file_frame (m : Manager W) f p :
  _should_include_file (set_files f m) p = _should_include_file m p.
Proof. reflexivity. Qed.

Lemma on_moved_file_runs (fs : fs_node) (event : FsEvent) w :
  let src := PyPath.abspath (src_path event) in
  let dst := PyPath.abspath (dest_path event) in
  src ∉ directories (mgr w) →
  is_Some (files (mgr w) !! src) →
  ∃ w',
    on_moved fs event w = (Ok tt, w')
    ∧ emitted_since w w' =
        [if _should_include_file (mgr w) dst
         then notice "moved" src (Some dst) else notice "deleted" src None]
    ∧ mgr w' =
        if _should_include_file (mgr w) dst then
          match stat_file fs (PyPath.abspath dst) with
          | Some st =>
              set_files (λ f, <[PyPath.abspath dst :=
                                  file_info (mgr w) (PyPath.abspath dst) st]>
                                (delete src f)) (mgr w)
          | None => set_files (delete src) (mgr w)
          end
        else set_files (delete src) (mgr w).
Proof.
  intros src dst Hnd Hf. unfold on_moved. fold src dst.
  rewrite bind_run. simpl. rewrite decide_False by exact Hnd.
  rewrite decide_True by exact Hf.
  rewrite bind_run, (del_file_runs src w Hf).
  rewrite bind_run. simpl. rewrite bind_run.
  rewrite should_include_file_frame.
  destruct (_should_include_file (mgr w) dst) eqn:Hinc.
  - rewrite bind_run.
    destruct (_add_file_runs fs dst (set_mgr (set_files (delete src)) w))
      as (w1 & -> & Hem1 & Hm1).
    destruct (notify_runs "moved" src (Some dst) w1) as (w2 & -> & Hm2 & _ & Hem2 & _).
    eexists. split; [reflexivity|]. simpl. split.
    + apply emitted_since_one. simpl. rewrite Hem2, Hem1. done.
    + rewrite Hm2, Hm1. simpl. by destruct (stat_file fs (PyPath.abspath dst)).
  - destruct (notify_runs "deleted" src None (set_mgr (set_files (delete src)) w))
      as (w2 & -> & Hm2 & _ & Hem2 & _).
    eexists. split; [reflexivity|]. simpl. split.
    + apply emitted_since_one. simpl. rewrite Hem2. done.
    + by rewrite Hm2.
Qed.

Lemma on_moved_directory_runs (fs : fs_node) (event : FsEvent) w :
  let src := PyPath.abspath (src_path event) in
  let dst := PyPath.abspath (dest_path event) in
  src ∈ directories (mgr w) →
  ∃ w',
    on_moved fs event w = (Ok tt, w')
    ∧ let accepted :=
        (recursive (mgr w) || bool_decide (PyPath.dirname dst = root_dir (mgr w)))
        && _should_include_directory (mgr w) dst in
      emitted_since w w' =
        [if accepted then notice "directory_moved" src (Some dst)
         else notice "directory_deleted" src None]
      ∧ mgr w' =
          set_directories
            (λ ds, if accepted then ds ∖ {[src]} ∪ {[dst]} else ds ∖ {[src]}) (mgr w).
Proof.
  intros src dst Hd. unfold on_moved. fold src dst.
  rewrite bind_run. simpl. rewrite decide_True by exact Hd.
  rewrite bind_run, (remove_dir_runs src w Hd).
  rewrite bind_run. simpl. rewrite bind_run.
  change (_should_include_directory
            (set_directories (λ ds, ds ∖ {[src]}) (mgr w)) dst)
    with (_should_include_directory (mgr w) dst).
  destruct (recursive (mgr w) || bool_decide (PyPath.dirname dst = root_dir (mgr w)));
    simpl; [destruct (_should_include_directory (mgr w) dst); simpl|].
  - rewrite bind_run. unfold add_dir at 1, modify at 1.
    match goal with |- context [_notify_file_change _ _ _ ?w1] =>
      destruct (notify_runs "directory_moved" src (Some dst) w1)
        as (w2 & -> & Hm2 & _ & Hem2 & _) end.
    eexists. split; [reflexivity|]. simpl. split.
    + apply emitted_since_one. simpl. rewrite Hem2. done.
    + rewrite Hm2. done.
  - match goal with |- context [_notify_file_change _ _ _ ?w1] =>
      destruct (notify_runs "directory_deleted" src None w1)
        as (w2 & -> & Hm2 & _ & Hem2 & _) end.
    eexists. split; [reflexivity|]. simpl. split.
    + apply emitted_since_one. simpl. rewrite Hem2. done.
    + rewrite Hm2. done.
  - match goal with |- context [_notify_file_change _ _ _ ?w1] =>
      destruct (notify_runs "directory_deleted" src None w1)
        as (w2 & -> & Hm2 & _ & Hem2 & _) end.
    eexists. split; [reflexivity|]. simpl. split.
    + apply emitted_since_one. simpl. rewrite Hem2. done.
    + rewrite Hm2. done.
Qed.

End MoveFacts.

Section MoveClaims.
Context {W : Type}.
Implicit Types (w : World W).

(** C4 (amended).  A [Moved(src, dst)] event whose [src] is a tracked file
    and not a tracked directory returns with the record of [src] removed.
    If the pattern engine accepts [dst], exactly one [moved(src, dst)]
    notice is emitted, and a record for [dst] is created when [dst] is a
    regular file on the disk (none is created when it is not).  If the
    engine rejects [dst], no record is created and exactly one
    [deleted(src)] notice is emitted. *)
Theorem on_moved_tracked_file (fs : fs_node) (event : FsEvent) w :
  let src := PyPath.abspath (src_path event) in
  let dst := PyPath.abspath (dest_path event) in
  src ∉ directories (mgr w) →
  is_Some (files (mgr w) !! src) →
  ∃ w',
    on_moved fs event w = (Ok tt, w')
    ∧ directories (mgr w') = directories (mgr w)
    ∧ (_should_include_file (mgr w) dst = true →
       emitted_since w w' = [notice "moved" src (Some dst)]
       ∧ (∀ st, stat_file fs (PyPath.abspath dst) = Some st →
            files (mgr w') =
            <[PyPath.abspath dst := file_info (mgr w) (PyPath.abspath dst) st]>
              (delete src (files (mgr w))))
       ∧ (stat_file fs (PyPath.abspath dst) = None →
            files (mgr w') = delete src (files (mgr w))))
    ∧ (_should_include_file (mgr w) dst = false →
       emitted_since w w' = [notice "deleted" src None]
       ∧ files (mgr w') = delete src (files (mgr w))).
Proof.
  intros src dst Hnd Hf.
  destruct (on_moved_file_runs fs event w Hnd Hf) as (w' & Hrun & Hem & Hm).
  fold src dst in Hem, Hm.
  exists w'. split; [exact Hrun|]. split; [|split].
  - rewrite Hm. destruct (_should_include_file (mgr w) dst); [|done].
    by destruct (stat_file fs (PyPath.abspath dst)).
  - intros Hacc. rewrite Hacc in Hem, Hm. split; [exact Hem|]. split.
    + intros st Hst. rewrite Hm, Hst. done.
    + intros Hst. rewrite Hm, Hst. done.
  - intros Hrej. rewrite Hrej in Hem, Hm. split; [exact Hem|]. by rewrite Hm.
Qed.

(** C9.  A [Moved(src, dst)] event whose [src] is a tracked directory
    returns with the file map, the rules and the callbacks as they were:
    only the directory set changes, by the removal of [src] and, when
    [dst] is accepted, the addition of [dst]. *)
Theorem on_moved_directory_keeps_files (fs : fs_node) (event : FsEvent) w :
  let src := PyPath.abspath (src_path event) in
  let dst := PyPath.abspath (dest_path event) in
  src ∈ directories (mgr w) →
  ∃ w',
    on_moved fs event w = (Ok tt, w')
    ∧ files (mgr w') = files (mgr w)
    ∧ (∀ p, files (mgr w') !! p = files (mgr w) !! p)
    ∧ root_dir (mgr w') = root_dir (mgr w)
    ∧ include_patterns (mgr w') = include_patterns (mgr w)
    ∧ exclude_patterns (mgr w') = exclude_patterns (mgr w)
    ∧ recursive (mgr w') = recursive (mgr w)
    ∧ file_change_callbacks (mgr w') = file_change_callbacks (mgr w)
    ∧ (directories (mgr w') = directories (mgr w) ∖ {[src]}
       ∨ directories (mgr w') = directories (mgr w) ∖ {[src]} ∪ {[dst]}).
Proof.
  intros src dst Hd.
  destruct (on_moved_directory_runs fs event w Hd) as (w' & Hrun & _ & Hm).
  fold src dst in Hm.
  exists w'. split; [exact Hrun|]. rewrite Hm. simpl.
  repeat split.
  match goal with |- context [if ?b then _ else _] => destruct b end; auto.
Qed.

End MoveClaims.

Lemma on_moved_tracked_file_witness :
  (PyPath.abspath (src_path MoveScenario.a_to_c)
     ∉ directories (mgr MoveScenario.world0))
  ∧ is_Some (files (mgr MoveScenario.world0)
               !! (PyPath.abspath (src_path MoveScenario.a_to_c)))
  ∧ ∃ w',
      on_moved MoveScenario.disk MoveScenario.a_to_c MoveScenario.world0 = (Ok tt, w')
      ∧ emitted_since MoveScenario.world0 w' = [notice "moved" "/r/a.txt" (Some "/r/c.txt")]
      ∧ files (mgr w') !! "/r/a.txt" = None
      ∧ is_Some (files (mgr w') !! "/r/c.txt").
Proof.
  assert (Hnd : PyPath.abspath (src_path MoveScenario.a_to_c)
                  ∉ directories (mgr MoveScenario.world0)).
  { vm_compute. discriminate. }
  assert (Hf : is_Some (files (mgr MoveScenario.world0)
                          !! (PyPath.abspath (src_path MoveScenario.a_to_c)))).
  { vm_compute. eauto. }
  split; [exact Hnd|]. split; [exact Hf|].
  destruct (on_moved_tracked_file MoveScenario.disk MoveScenario.a_to_c
              MoveScenario.world0 Hnd Hf) as (w' & Hrun & _ & Hacc & _).
  destruct Hacc as (Hem & Hfiles & _); [vm_compute; reflexivity|].
  exists w'. split; [exact Hrun|]. split; [exact Hem|].
  rewrite (Hfiles MoveScenario.st0) by (vm_compute; reflexivity).
  split; vm_compute; eauto.
Defined.

(** Where C4 as stated fails: the engine accepts a destination that is no
    longer on the disk, and no record is created for it; and a source
    that is also a tracked directory takes the directory branch, which
    leaves its file record in place. *)
Lemma on_moved_file_claim_fails :
  (is_Some (files (mgr MoveScenario.world0) !! "/r/a.txt")
   ∧ _should_include_file (mgr MoveScenario.world0) "/r/b.txt" = true
   ∧ ¬ ∃ w',
         on_moved MoveScenario.disk MoveScenario.a_to_b MoveScenario.world0 = (Ok tt, w')
         ∧ is_Some (files (mgr w') !! "/r/b.txt"))
  ∧ (is_Some (files (mgr MoveScenario.world_both) !! "/r/x")
     ∧ ¬ ∃ w',
         on_moved MoveScenario.disk MoveScenario.x_to_y MoveScenario.world_both = (Ok tt, w')
         ∧ files (mgr w') !! "/r/x" = None).
Proof.
  split; [split; [vm_compute; eauto|split; [vm_compute; reflexivity|]]
         |split; [vm_compute; eauto|]].
  - intros (w' & Hrun & [v Hv]). vm_compute in Hrun. injection Hrun as <-.
    vm_compute in Hv. discriminate.
  - intros (w' & Hrun & Hv). vm_compute in Hrun. injection Hrun as <-.
    vm_compute in Hv. discriminate.
Qed.

Lemma on_moved_directory_keeps_files_witness :
  PyPath.abspath (src_path MoveScenario.d_to_e)
    ∈ directories (mgr MoveScenario.world_dir)
  ∧ ∃ w',
      on_moved MoveScenario.disk MoveScenario.d_to_e MoveScenario.world_dir = (Ok tt, w')
      ∧ files (mgr w') = files (mgr MoveScenario.world_dir)
      ∧ is_Some (files (mgr w') !! "/r/d/f.txt").
Proof.
  assert (Hd : PyPath.abspath (src_path MoveScenario.d_to_e)
                 ∈ directories (mgr MoveScenario.world_dir)).
  { vm_compute. reflexivity. }
  split; [exact Hd|].
  destruct (on_moved_directory_keeps_files MoveScenario.disk MoveScenario.d_to_e
              MoveScenario.world_dir Hd) as (w' & Hrun & Hfiles & _).
  exists w'. split; [exact Hrun|]. split; [exact Hfiles|].
  rewrite Hfiles. vm_compute. eauto.
Defined.

(** ** Snapshots *)

Section SnapshotClaim.
Context {W : Type}.
Implicit Types (w : World W).

(** C5 (amended).  Loading what another manager state saved, with the
    same configured root, restores the saved file map, directory set and
    recursive flag; it restores the saved include list when the loading
    manager's include list is empty or the default [["*"]] and keeps the
    loader's own list otherwise, and likewise restores the exclude list
    when the loader's is empty.  With a different configured root the
    load changes nothing. *)
Theorem snapshot_round_trip (saver loader : World W) :
  ∃ loaded,
    _load_data (with_snapshot_of saver loader) = (Ok tt, loaded)
    ∧ (root_dir (mgr loader) = root_dir (mgr saver) →
       files (mgr loaded) = files (mgr saver)
       ∧ directories (mgr loaded) = directories (mgr saver)
       ∧ recursive (mgr loaded) = recursive (mgr saver)
       ∧ include_patterns (mgr loaded) =
           (if bool_decide (include_patterns (mgr loader) = []
                            ∨ include_patterns (mgr loader) = ["*"])
            then include_patterns (mgr saver)
            else include_patterns (mgr loader))
       ∧ exclude_patterns (mgr loaded) =
           (if bool_decide (exclude_patterns (mgr loader) = [])
            then exclude_patterns (mgr saver)
            else exclude_patterns (mgr loader))
       ∧ root_dir (mgr loaded) = root_dir (mgr loader)
       ∧ file_change_callbacks (mgr loaded) = file_change_callbacks (mgr loader))
    ∧ (root_dir (mgr loader) ≠ root_dir (mgr saver) →
       loaded = with_snapshot_of saver loader).
Proof.
  unfold _load_data, with_snapshot_of, _save_data, modify. rewrite bind_run. simpl.
  destruct (decide (root_dir (mgr saver) = root_dir (mgr loader))) as [Heq|Hne].
  - eexists. split; [reflexivity|]. split; [|congruence].
    intros _. simpl.
    repeat case_bool_decide; simpl; rewrite ?list_to_set_elements_L;
      repeat split; tauto.
  - eexists. split; [reflexivity|]. split; [congruence|done].
Qed.

End SnapshotClaim.

Lemma snapshot_round_trip_witness :
  root_dir (mgr SnapshotScenario.default_loader) = root_dir (mgr SnapshotScenario.saver)
  ∧ ∃ loaded,
      _load_data (with_snapshot_of SnapshotScenario.saver SnapshotScenario.default_loader)
      = (Ok tt, loaded)
      ∧ files (mgr loaded) = files (mgr SnapshotScenario.saver)
      ∧ directories (mgr loaded) = directories (mgr SnapshotScenario.saver)
      ∧ recursive (mgr loaded) = false
      ∧ include_patterns (mgr loaded) = ["*.txt"]
      ∧ exclude_patterns (mgr loaded) = ["temp/*"].
Proof.
  split; [reflexivity|].
  destruct (snapshot_round_trip SnapshotScenario.saver SnapshotScenario.default_loader)
    as (loaded & Hrun & Hsame & _).
  destruct (Hsame eq_refl) as (Hf & Hd & Hr & Hi & He & _).
  exists loaded. split; [exact Hrun|].
  split; [exact Hf|]. split; [exact Hd|].
  split; [exact Hr|]. split; [exact Hi|exact He].
Defined.

(** Where C5 as stated fails: a manager constructed with rules of its own
    keeps them when it loads a snapshot of the same root. *)
Lemma snapshot_round_trip_claim_fails :
  root_dir (mgr SnapshotScenario.loader) = root_dir (mgr SnapshotScenario.saver)
  ∧ ¬ ∃ loaded,
        _load_data (with_snapshot_of SnapshotScenario.saver SnapshotScenario.loader)
        = (Ok tt, loaded)
        ∧ include_patterns (mgr loaded) = include_patterns (mgr SnapshotScenario.saver)
        ∧ exclude_patterns (mgr loaded) = exclude_patterns (mgr SnapshotScenario.saver).
Proof.
  split; [reflexivity|].
  intros (loaded & Hrun & Hi & _). vm_compute in Hrun. injection Hrun as <-.
  vm_compute in Hi. discriminate.
Qed.

(** ** Failure isolation of the callbacks *)

Section DeliveryFacts.
Context {W : Type}.
Implicit Types (h : Delivery.Hub (W:=W)) (s : Delivery.subscriber (W:=W)).
Implicit Types (l : list (Delivery.subscriber (W:=W))).







End DeliveryFacts.

Section IsolationClaim.
Context {W : Type}.
Implicit Types (w : World W).



End IsolationClaim.





(** ** The tag store *)

Import TagManager.

Section TagForest.
Implicit Types (tg : gmap string Tag) (s : Store) (R U : gset string).

Lemma child_of_weaken tg tg' c p :
  tg ⊆ tg' → child_of tg c p → child_of tg' c p.
Proof.
  intros Hsub (tag & Hc & Hp). exists tag. split; [|done].
  by eapply lookup_weaken.
Qed.

Lemma descends_weaken tg tg' x t :
  tg ⊆ tg' → descends tg x t → descends tg' x t.
Proof.
  intros Hsub. unfold descends. apply rtc_subrel.
  intros c p. by apply child_of_weaken.
Qed.

Lemma child_of_functional tg c p p' :
  child_of tg c p → child_of tg c p' → p = p'.
Proof. intros (tag & Hc & Hp) (tag' & Hc' & Hp'). congruence. Qed.

Lemma child_of_is_tag tg c p : child_of tg c p → is_Some (tg !! c).
Proof. intros (tag & Hc & _). eauto. Qed.

Lemma descends_is_tag tg x t :
  is_Some (tg !! t) → descends tg x t → is_Some (tg !! x).
Proof.
  intros Ht Hd. apply rtc_inv in Hd as [->|(y & Hxy & _)]; [done|].
  by eapply child_of_is_tag.
Qed.

(** In a finite store without cycles every chain of children ends. *)
Lemma acyclic_Acc_aux tg (n : nat) :
  acyclic tg →
  ∀ (visited : gset string) (t : string),
    is_Some (tg !! t) → t ∉ visited →
    (∀ v, v ∈ visited → tc (child_of tg) t v) →
    base.size (dom tg ∖ visited) ≤ n →
    Acc (child_of tg) t.
Proof.
  intros Hacyc. induction n as [|n IH]; intros visited t Ht Hnv Hanc Hsize.
  - exfalso. assert (Hin : t ∈ dom tg ∖ visited).
    { apply elem_of_difference. split; [by apply elem_of_dom|done]. }
    assert (Hz : base.size (dom tg ∖ visited) = 0) by lia.
    apply size_empty_inv in Hz. set_solver.
  - constructor. intros c Hc.
    assert (Hcv : c ∉ visited ∪ {[t]}).
    { intros [Hv| ->%elem_of_singleton]%elem_of_union.
      - apply (Hacyc c). eapply tc_l; [exact Hc|]. by apply Hanc.
      - apply (Hacyc t). by apply tc_once. }
    apply (IH (visited ∪ {[t]}) c).
    + by eapply child_of_is_tag.
    + exact Hcv.
    + intros v [Hv| ->%elem_of_singleton]%elem_of_union.
      * eapply tc_l; [exact Hc|]. by apply Hanc.
      * by apply tc_once.
    + assert (Hlt : base.size (dom tg ∖ (visited ∪ {[t]})) < base.size (dom tg ∖ visited)).
      { apply subset_size. apply elem_of_dom in Ht.
        split; [set_solver|]. intros Hsub. specialize (Hsub t). set_solver. }
      lia.
Qed.

Lemma acyclic_Acc tg t : acyclic tg → Acc (child_of tg) t.
Proof.
  intros Hacyc. constructor. intros c Hc.
  apply (acyclic_Acc_aux tg (base.size (dom tg)) Hacyc ∅ c).
  - by eapply child_of_is_tag.
  - set_solver.
  - set_solver.
  - apply subseteq_size. set_solver.
Qed.

(** Below a well-founded tag, no child is an ancestor of its parent. *)
Lemma no_cycle tg t :
  Acc (child_of tg) t → ∀ c, child_of tg c t → ¬ descends tg t c.
Proof.
  induction 1 as [t _ IH]. intros c Hc Hd.
  apply rtc_inv_r in Hd as [->|(z & Htz & Hzc)].
  - apply (IH _ Hc _ Hc). apply rtc_refl.
  - apply (IH c Hc z Hzc). eapply rtc_l; [exact Hc|exact Htz].
Qed.

Lemma strip_strip R U (ids : gset string) :
  strip R ids ≫= strip U = strip (R ∪ U) ids.
Proof.
  unfold strip.
  destruct (decide (ids ≠ ∅ ∧ ids ∖ R = ∅)) as [[Hne HR]|HnR]; simpl.
  - rewrite decide_True; [done|]. split; [done|set_solver].
  - destruct (decide (ids ∖ R ≠ ∅ ∧ ids ∖ R ∖ U = ∅)) as [[Hne HU]|HnU].
    + rewrite decide_True; [done|]. split; [set_solver|set_solver].
    + rewrite decide_False.
      * f_equal. set_solver.
      * intros [Hne HRU]. destruct (decide (ids ∖ R = ∅)) as [He|He].
        -- apply HnR. done.
        -- apply HnU. split; [done|set_solver].
Qed.

Lemma strip_empty (ids : gset string) : strip ∅ ids = Some ids.
Proof.
  unfold strip. rewrite decide_False.
  - f_equal. set_solver.
  - intros [Hne He]. apply Hne. set_solver.
Qed.

Lemma removed_as_refl s : removed_as ∅ s s.
Proof.
  split.
  - intros x. by rewrite decide_False by set_solver.
  - intros f. destruct (file_tags s !! f) as [ids|]; simpl; [|done].
    by rewrite strip_empty.
Qed.

Lemma removed_as_trans R U s s1 s2 :
  removed_as R s s1 → removed_as U s1 s2 → removed_as (R ∪ U) s s2.
Proof.
  intros [Ht1 Hf1] [Ht2 Hf2]. split.
  - intros x. rewrite Ht2, Ht1.
    destruct (decide (x ∈ U)), (decide (x ∈ R)), (decide (x ∈ R ∪ U));
      try done; set_solver.
  - intros f. rewrite Hf2, Hf1.
    destruct (file_tags s !! f) as [ids|]; simpl; [|done].
    apply strip_strip.
Qed.

Lemma removed_as_subseteq R s s' : removed_as R s s' → tags s' ⊆ tags s.
Proof.
  intros [Ht _]. apply map_subseteq_spec. intros x tag Hx.
  rewrite Ht in Hx. by destruct (decide (x ∈ R)).
Qed.

End TagForest.

Section RemoveTag.
Implicit Types (tg : gmap string Tag) (s : Store) (R U : gset string).

Lemma detach_runs t f s (ids : gset string) :
  file_tags s !! f = Some ids →
  ∃ s',
    detach t f s = (Ok tt, s')
    ∧ tags s' = tags s
    ∧ tags_file s' = tags_file s
    ∧ file_tags s' !! f = strip {[t]} ids
    ∧ ∀ f', f' ≠ f → file_tags s' !! f' = file_tags s !! f'.
Proof.
  intros Hf. unfold detach. rewrite bind_run. simpl. rewrite Hf.
  unfold strip. destruct (decide (t ∈ ids)) as [Hin|Hnin].
  - eexists. split; [reflexivity|]. simpl. repeat split.
    + destruct (decide (ids ∖ {[t]} = ∅)) as [He|He].
      * rewrite lookup_delete_eq. rewrite decide_True; [done|]. split; [set_solver|done].
      * rewrite lookup_insert_eq. rewrite decide_False; [done|]. tauto.
    + intros f' Hne. destruct (decide (ids ∖ {[t]} = ∅)).
      * by rewrite lookup_delete_ne.
      * by rewrite lookup_insert_ne.
  - exists s. split; [reflexivity|]. split; [done|]. split; [done|].
    split; [|done].
    rewrite Hf. rewrite decide_False.
    + f_equal. set_solver.
    + intros [Hne He]. apply Hne. set_solver.
Qed.

Lemma detach_loop t (l : list string) s :
  NoDup l →
  (∀ f, f ∈ l → is_Some (file_tags s !! f)) →
  ∃ s',
    for_each l (detach t) s = (Ok tt, s')
    ∧ tags s' = tags s
    ∧ tags_file s' = tags_file s
    ∧ ∀ f, file_tags s' !! f =
           if decide (f ∈ l) then file_tags s !! f ≫= strip {[t]}
           else file_tags s !! f.
Proof.
  revert s. induction l as [|k l IH]; intros s Hnd Hin.
  - exists s. split; [reflexivity|]. split; [done|]. split; [done|].
    intros f. by rewrite decide_False by set_solver.
  - apply NoDup_cons in Hnd as [Hk Hnd].
    destruct (Hin k) as [ids Hids]; [set_solver|].
    destruct (detach_runs t k s ids Hids) as (s1 & Hrun1 & Ht1 & Hp1 & Hk1 & Ho1).
    destruct (IH s1 Hnd) as (s' & Hrun & Ht & Hp & Hf).
    { intros f Hf. rewrite Ho1 by set_solver. apply Hin. set_solver. }
    exists s'. simpl. rewrite bind_run, Hrun1, Hrun, Ht, Hp, Ht1, Hp1.
    repeat split. intros f. rewrite Hf.
    destruct (decide (f = k)) as [->|Hne].
    + rewrite decide_False by done. rewrite decide_True by set_solver.
      by rewrite Hk1, Hids.
    + rewrite Ho1 by done.
      destruct (decide (f ∈ l)), (decide (f ∈ k :: l)); try done; set_solver.
Qed.

Lemma detach_all t s :
  ∃ s',
    for_each (fst <$> map_to_list (file_tags s)) (detach t) s = (Ok tt, s')
    ∧ tags s' = tags s
    ∧ tags_file s' = tags_file s
    ∧ ∀ f, file_tags s' !! f = file_tags s !! f ≫= strip {[t]}.
Proof.
  assert (Hkeys : ∀ f, f ∈ fst <$> map_to_list (file_tags s) ↔
                       is_Some (file_tags s !! f)).
  { intros f. rewrite list_elem_of_fmap. split.
    - intros [[k v] [-> Hkv]]. apply elem_of_map_to_list in Hkv. eauto.
    - intros [v Hv]. exists (f, v). split; [done|]. by apply elem_of_map_to_list. }
  destruct (detach_loop t (fst <$> map_to_list (file_tags s)) s)
    as (s' & Hrun & Ht & Hp & Hf).
  { apply NoDup_fst_map_to_list. }
  { intros f Hf. by apply Hkeys. }
  exists s'. repeat split; try done. intros f. rewrite Hf.
  destruct (decide (f ∈ fst <$> map_to_list (file_tags s))) as [Hin|Hnin]; [done|].
  destruct (file_tags s !! f) eqn:Hl; [|done].
  exfalso. apply Hnin, Hkeys. eauto.
Qed.

Lemma child_tags_spec tg t c : c ∈ child_tags tg t ↔ child_of tg c t.
Proof.
  unfold child_tags, child_of. rewrite list_elem_of_fmap. split.
  - intros [[k tag] [-> [Hp Hkv]%list_elem_of_filter]].
    apply elem_of_map_to_list in Hkv. eauto.
  - intros (tag & Hc & Hp). exists (c, tag). split; [done|].
    apply list_elem_of_filter. split; [done|]. by apply elem_of_map_to_list.
Qed.

Lemma child_tags_NoDup tg t : NoDup (child_tags tg t).
Proof.
  unfold child_tags. eapply sublist_NoDup; [apply (NoDup_fst_map_to_list tg)|].
  apply fmap_sublist, sublist_filter.
Qed.

End RemoveTag.

Section RemoveTagRecursion.
Implicit Types (tg : gmap string Tag) (s : Store) (R U : gset string).

Lemma descends_outside (U : gset string) s s_cur x c :
  removed_as U s s_cur →
  (∀ y z, y ∈ U → descends (tags s) z y → is_Some (tags s !! z) → z ∈ U) →
  x ∉ U →
  descends (tags s) x c →
  descends (tags s_cur) x c.
Proof.
  intros [Ht _] Hclosed Hx Hd. unfold descends in *.
  induction Hd as [x|x y c Hxy Hyc IH]; [apply rtc_refl|].
  destruct Hxy as (tag & Hxt & Hp).
  eapply rtc_l.
  - exists tag. split; [|exact Hp]. rewrite Ht. by rewrite decide_False.
  - apply IH. intros Hy. apply Hx. apply (Hclosed y x Hy).
    + apply rtc_once. by exists tag.
    + eauto.
Qed.

Lemma children_loop tg0 t s :
  tags s ⊆ tg0 →
  Acc (child_of tg0) t →
  (∀ c, child_of tg0 c t → ∀ s1, tags s1 ⊆ tg0 → is_Some (tags s1 !! c) →
     ∃ N s', (∀ depth, N ≤ depth → remove_tag depth c s1 = (Ok tt, s'))
             ∧ removal_of c s1 s') →
  ∀ (l done : list string) s_cur U,
    NoDup (done ++ l) →
    (∀ c, c ∈ done ++ l → child_of (tags s) c t) →
    removed_as U s s_cur →
    (∀ x, x ∈ U ↔ is_Some (tags s !! x) ∧ ∃ c, c ∈ done ∧ descends (tags s) x c) →
    ∃ N s' U',
      (∀ depth, N ≤ depth → for_each l (remove_tag depth) s_cur = (Ok tt, s'))
      ∧ removed_as U' s s'
      ∧ (∀ x, x ∈ U' ↔
              is_Some (tags s !! x) ∧ ∃ c, c ∈ done ++ l ∧ descends (tags s) x c).
Proof.
  intros Hsub Hacc IH l.
  induction l as [|c l IHl]; intros done s_cur U Hnd Hall Hrem HU.
  - exists 0, s_cur, U. split; [done|]. split; [done|].
    intros x. rewrite app_nil_r. apply HU.
  - assert (Hc : child_of (tags s) c t) by (apply Hall; set_solver).
    assert (Hclosed : ∀ y z, y ∈ U → descends (tags s) z y →
                             is_Some (tags s !! z) → z ∈ U).
    { intros y z [_ (c' & Hc' & Hyc')]%HU Hzy Hz. apply HU. split; [done|].
      exists c'. split; [done|]. unfold descends in *. by etrans. }
    assert (HcU : c ∉ U).
    { intros [_ (c' & Hc' & Hd)]%HU.
      apply NoDup_app in Hnd as (_ & Hdisj & _).
      apply rtc_inv in Hd as [->|(y & Hcy & Hyc')].
      - apply (Hdisj c' Hc'). set_solver.
      - assert (y = t) as -> by (eapply child_of_functional; eauto).
        apply (no_cycle tg0 t Hacc c').
        + eapply child_of_weaken; [exact Hsub|]. apply Hall. set_solver.
        + eapply descends_weaken; [exact Hsub|exact Hyc']. }
    assert (Hsub_cur : tags s_cur ⊆ tg0).
    { etrans; [by eapply removed_as_subseteq|done]. }
    assert (Hc_cur : is_Some (tags s_cur !! c)).
    { destruct Hrem as [Ht _]. rewrite Ht, decide_False by done.
      by eapply child_of_is_tag. }
    destruct (IH c (child_of_weaken _ _ _ _ Hsub Hc) s_cur Hsub_cur Hc_cur)
      as (Nc & s1 & Hrun1 & R & HR & Hrem1 & _).
    destruct (IHl (done ++ [c]) s1 (U ∪ R)) as (N' & s' & U' & Hrun' & Hrem' & HU').
    { by rewrite <- app_assoc. }
    { intros c'. rewrite <- app_assoc. apply Hall. }
    { by eapply removed_as_trans. }
    { intros x. rewrite elem_of_union, HU, HR. split.
      - intros [[Hx (c' & Hc' & Hd)]|[Hx Hd]].
        + split; [done|]. exists c'. split; [set_solver|done].
        + destruct (decide (x ∈ U)) as [HxU|HxU].
          * apply HU in HxU as [Hx' (c' & Hc' & Hd')].
            split; [done|]. exists c'. split; [set_solver|done].
          * split.
            -- destruct Hrem as [Ht _]. rewrite Ht, decide_False in Hx; done.
            -- exists c. split; [set_solver|].
               eapply descends_weaken; [by eapply removed_as_subseteq|done].
      - intros [Hx (c' & [Hc'| ->%list_elem_of_singleton]%elem_of_app & Hd)].
        + left. eauto.
        + destruct (decide (x ∈ U)) as [HxU|HxU].
          * left. by apply HU.
          * right. split.
            -- destruct Hrem as [Ht _]. by rewrite Ht, decide_False.
            -- by eapply descends_outside. }
    exists (Nc `max` N'), s', U'. split; [|split; [done|]].
    + intros depth Hd. simpl. rewrite bind_run.
      rewrite Hrun1 by lia. apply Hrun'. lia.
    + intros x. rewrite HU', <- app_assoc. done.
Qed.

Lemma remove_tag_total tg0 t :
  Acc (child_of tg0) t →
  ∀ s, tags s ⊆ tg0 → is_Some (tags s !! t) →
    ∃ N s', (∀ depth, N ≤ depth → remove_tag depth t s = (Ok tt, s'))
            ∧ removal_of t s s'.
Proof.
  intros Hacc. induction Hacc as [t Hacc IH]. intros s Hsub Ht.
  assert (Hacc_t : Acc (child_of tg0) t) by (constructor; exact Hacc).
  destruct (children_loop tg0 t s Hsub Hacc_t IH (child_tags (tags s) t) [] s ∅)
    as (N & sk & U & Hloop & Hrem & HU).
  { apply child_tags_NoDup. }
  { intros c Hc. by apply child_tags_spec. }
  { apply removed_as_refl. }
  { intros x. split; [set_solver|]. intros [_ (c & Hc & _)]. set_solver. }
  simpl in HU.
  destruct (detach_all t sk) as (sf & Hdetach & Htf & Hpf & Hff).
  assert (HtU : t ∉ U).
  { intros [_ (c & Hc%child_tags_spec & Hd)]%HU.
    apply (no_cycle tg0 t Hacc_t c).
    - by eapply child_of_weaken.
    - by eapply descends_weaken. }
  destruct Hrem as [Hrt Hrf].
  assert (Htk : tags sf !! t = tags s !! t).
  { by rewrite Htf, Hrt, decide_False. }
  destruct Ht as [tag Htag].
  eexists (S N), _. split.
  - intros [|depth] Hd; [lia|]. simpl. rewrite bind_run. simpl.
    rewrite decide_True by eauto.
    rewrite bind_run, Hloop by lia. rewrite bind_run. simpl.
    rewrite bind_run, Hdetach. rewrite bind_run. simpl.
    rewrite Htk, Htag. reflexivity.
  - exists (U ∪ {[t]}). split; [|split].
    + intros x. rewrite elem_of_union, elem_of_singleton, HU. split.
      * intros [[Hx (c & Hc%child_tags_spec & Hd)]| ->].
        -- split; [done|]. unfold descends in *. eapply rtc_r; eauto.
        -- split; [eauto|apply rtc_refl].
      * intros [Hx Hd]. apply rtc_inv_r in Hd as [->|(c & Hxc & Hct)]; [by right|].
        left. split; [done|]. exists c. split; [by apply child_tags_spec|done].
    + split.
      * intros x. simpl. destruct (decide (x = t)) as [->|Hne].
        -- rewrite lookup_delete_eq. by rewrite decide_True by set_solver.
        -- rewrite lookup_delete_ne by done. rewrite Htf, Hrt.
           destruct (decide (x ∈ U)), (decide (x ∈ U ∪ {[t]})); try done; set_solver.
      * intros f. simpl. rewrite Hff, Hrf.
        destruct (file_tags s !! f) as [ids|]; simpl; [|done].
        apply strip_strip.
    + reflexivity.
Qed.

End RemoveTagRecursion.

(** A store whose tags can be ranked, children above their parents, has
    no cycle. *)
Lemma acyclic_by_rank (tg : gmap string Tag) (rank : string → nat) :
  map_Forall (λ c tag,
    from_option (λ p, bool_decide (rank p < rank c)) true (parent tag) = true) tg →
  acyclic tg.
Proof.
  intros Hrank x Hx.
  assert (Hstep : ∀ a b, child_of tg a b → rank b < rank a).
  { intros a b (tag & Ha & Hp). specialize (Hrank a tag Ha). simpl in Hrank.
    rewrite Hp in Hrank. simpl in Hrank. by apply bool_decide_eq_true in Hrank. }
  assert (Hlt : ∀ a b, tc (child_of tg) a b → rank b < rank a).
  { intros a b Hab. induction Hab as [a b Hab|a b c Hab _ IH].
    - by apply Hstep.
    - apply Hstep in Hab. lia. }
  specialize (Hlt x x Hx). lia.
Qed.

(** C7 (amended).  In a store whose parent references form a forest,
    [remove_tag(t)] on an existing tag returns (given enough recursion
    depth) with [t] and every transitive descendant of [t] deleted from
    the tag map, every other tag kept, and the deleted ids detached from
    every file's tag set: no file refers to a deleted id afterwards, and
    if every id the files referred to was a tag before, that still holds
    afterwards.  On an id that is no tag, [remove_tag] raises
    [ValueError] and leaves the store as it was. *)
Theorem remove_tag_cascades (s : Store) (t : string) :
  acyclic (tags s) →
  (is_Some (tags s !! t) →
   ∃ N s',
     (∀ depth, N ≤ depth → remove_tag depth t s = (Ok tt, s'))
     ∧ (∀ x, descends (tags s) x t → tags s' !! x = None)
     ∧ (∀ x, ¬ descends (tags s) x t → tags s' !! x = tags s !! x)
     ∧ (∀ f ids' x, file_tags s' !! f = Some ids' → x ∈ ids' →
          ¬ descends (tags s) x t
          ∧ ∃ ids, file_tags s !! f = Some ids ∧ x ∈ ids)
     ∧ (∀ f ids x, file_tags s !! f = Some ids → x ∈ ids →
          ¬ descends (tags s) x t →
          ∃ ids', file_tags s' !! f = Some ids' ∧ x ∈ ids')
     ∧ (references_exist s → references_exist s')
     ∧ persisted s')
  ∧ (tags s !! t = None →
     ∀ depth, remove_tag (S depth) t s = (Raise (ValueError "tag does not exist"), s)).
Proof.
  intros Hacyc. split.
  - intros Ht.
    destruct (remove_tag_total (tags s) t (acyclic_Acc _ _ Hacyc) s) as
      (N & s' & Hrun & R & HR & [Hrt Hrf] & Hpers); [done|done|].
    assert (HRd : ∀ x, x ∈ R ↔ descends (tags s) x t).
    { intros x. rewrite HR. split; [tauto|]. intros Hd. split; [|done].
      by eapply descends_is_tag. }
    assert (Hback : ∀ f ids' x, file_tags s' !! f = Some ids' → x ∈ ids' →
              ¬ descends (tags s) x t ∧ ∃ ids, file_tags s !! f = Some ids ∧ x ∈ ids).
    { intros f ids' x Hf Hx. rewrite Hrf in Hf.
      destruct (file_tags s !! f) as [ids|]; simpl in Hf; [|done].
      unfold strip in Hf. case_decide; [done|]. injection Hf as <-.
      apply elem_of_difference in Hx as [Hx HxR]. split.
      - by rewrite <- HRd.
      - eauto. }
    exists N, s'. split; [exact Hrun|]. split; [|split; [|split; [|split; [|split]]]].
    + intros x Hd. rewrite Hrt. by rewrite decide_True by (by apply HRd).
    + intros x Hd. rewrite Hrt. by rewrite decide_False by (by rewrite HRd).
    + exact Hback.
    + intros f ids x Hf Hx Hnd. rewrite Hrf, Hf. simpl. unfold strip.
      assert (x ∈ ids ∖ R) by (apply elem_of_difference; by rewrite HRd).
      rewrite decide_False by set_solver. eauto.
    + intros Href f ids' x Hf Hx.
      destruct (Hback f ids' x Hf Hx) as (Hnd & ids & Hfs & Hxs).
      rewrite Hrt, decide_False by (by rewrite HRd). by eapply Href.
    + exact Hpers.
  - intros Hnone depth. simpl. rewrite bind_run. simpl.
    rewrite decide_False; [done|]. rewrite Hnone. by intros [? ?].
Qed.

Lemma remove_tag_cascades_witness :
  acyclic (tags TagScenario.forest)
  ∧ is_Some (tags TagScenario.forest !! "work")
  ∧ ∃ N s',
      (∀ depth, N ≤ depth → remove_tag depth "work" TagScenario.forest = (Ok tt, s'))
      ∧ tags s' !! "draft" = None
      ∧ is_Some (tags s' !! "home").
Proof.
  assert (Hacyc : acyclic (tags TagScenario.forest)).
  { apply (acyclic_by_rank _ TagScenario.depth_of).
    apply map_Forall_to_list. vm_compute. repeat constructor. }
  assert (Ht : is_Some (tags TagScenario.forest !! "work")).
  { vm_compute. eauto. }
  split; [exact Hacyc|]. split; [exact Ht|].
  destruct (proj1 (remove_tag_cascades TagScenario.forest "work" Hacyc) Ht)
    as (N & s' & Hrun & Hgone & Hkept & _).
  exists N, s'. split; [exact Hrun|]. split.
  - apply Hgone. unfold descends.
    eapply rtc_l; [|eapply rtc_l; [|apply rtc_refl]].
    + eexists. split; [vm_compute; reflexivity|reflexivity].
    + eexists. split; [vm_compute; reflexivity|reflexivity].
  - rewrite Hkept; [vm_compute; eauto|].
    intros Hd. apply rtc_inv in Hd as [Heq|(y & (tag & Hl & Hp) & _)]; [done|].
    vm_compute in Hl. injection Hl as <-. done.
Defined.

(** Where C7 as stated fails: a file that referred to an id that is no
    tag still refers to it after an unrelated tag was removed. *)
Lemma remove_tag_claim_fails :
  acyclic (tags TagScenario.dangling)
  ∧ is_Some (tags TagScenario.dangling !! "work")
  ∧ ¬ ∃ depth s',
        remove_tag depth "work" TagScenario.dangling = (Ok tt, s')
        ∧ references_exist s'.
Proof.
  split; [|split].
  - apply (acyclic_by_rank _ (λ _, 0)).
    apply map_Forall_to_list. vm_compute. repeat constructor.
  - vm_compute. eauto.
  - intros (depth & s' & Hrun & Href). destruct depth as [|depth].
    + discriminate Hrun.
    + vm_compute in Hrun. injection Hrun as <-.
      destruct (Href "/a.txt" {["ghost"]} "ghost") as [tag Htag].
      * vm_compute. reflexivity.
      * set_solver.
      * vm_compute in Htag. discriminate.
Qed.

(** ** Invariants of the tag store *)

Section Preservation.
Context {St : Type} (I : St → Prop).

Lemma preserves_ret {A} (a : A) : preserves I (mret a : M St A).
Proof. intros s Hs. exact Hs. Qed.

Lemma preserves_raise {A} (e : exn) : preserves I (raise e : M St A).
Proof. intros s Hs. exact Hs. Qed.

Lemma preserves_get : preserves I (get : M St St).
Proof. intros s Hs. exact Hs. Qed.

Lemma preserves_modify (f : St → St) :
  (∀ s, I s → I (f s)) → preserves I (modify f).
Proof. intros Hf s Hs. by apply Hf. Qed.

Lemma preserves_bind {A B} (m : M St A) (k : A → M St B) :
  preserves I m → (∀ a, preserves I (k a)) → preserves I (m ≫= k).
Proof.
  intros Hm Hk s Hs. rewrite bind_run. specialize (Hm s Hs).
  destruct (m s) as [[a|e] s1]; simpl in *; [by apply Hk|done].
Qed.

Lemma preserves_for_each {X} (l : list X) (body : X → M St unit) :
  (∀ x, preserves I (body x)) → preserves I (for_each l body).
Proof.
  intros Hbody. induction l as [|x l IH]; simpl.
  - apply preserves_ret.
  - apply preserves_bind; [apply Hbody|]. intros _. apply IH.
Qed.

End Preservation.

Section TagInvariant.
Implicit Types (s : Store).

Lemma no_empty_entry_detached s (f t : string) (ids : gset string) :
  no_empty_entry s →
  no_empty_entry
    (set_file_tags (λ ft,
       if decide (ids ∖ {[t]} = ∅) then delete f ft
       else <[f := ids ∖ {[t]}]> ft) s).
Proof.
  intros Hs f' ids'. simpl. destruct (decide (ids ∖ {[t]} = ∅)) as [He|He].
  - intros Hl. apply lookup_delete_Some in Hl as [_ Hl]. by eapply Hs.
  - intros Hl. apply lookup_insert_Some in Hl as [[_ <-]|[_ Hl]]; [done|].
    by eapply Hs.
Qed.

Lemma detach_preserves t f : preserves no_empty_entry (detach t f).
Proof.
  unfold detach. apply preserves_bind; [apply preserves_get|]. intros s0.
  destruct (file_tags s0 !! f) as [ids|]; [|apply preserves_raise].
  destruct (decide (t ∈ ids)); [|apply preserves_ret].
  apply preserves_modify. intros s Hs. by apply no_empty_entry_detached.
Qed.

Lemma save_preserves : preserves no_empty_entry TagManager._save_data.
Proof. apply preserves_modify. intros s Hs. exact Hs. Qed.

Lemma remove_tag_preserves depth t : preserves no_empty_entry (remove_tag depth t).
Proof.
  revert t. induction depth as [|depth IH]; intros t; simpl.
  - apply preserves_raise.
  - apply preserves_bind; [apply preserves_get|]. intros s0.
    destruct (decide (is_Some (tags s0 !! t))); [|apply preserves_raise].
    apply preserves_bind; [apply preserves_for_each, IH|]. intros _.
    apply preserves_bind; [apply preserves_get|]. intros s1.
    apply preserves_bind; [apply preserves_for_each, detach_preserves|]. intros _.
    apply preserves_bind; [apply preserves_get|]. intros s2.
    destruct (tags s2 !! t); [|apply preserves_raise].
    apply preserves_bind; [|intros _; apply save_preserves].
    apply preserves_modify. intros s Hs. exact Hs.
Qed.

Lemma add_tag_to_file_preserves f t : preserves no_empty_entry (add_tag_to_file f t).
Proof.
  unfold add_tag_to_file. apply preserves_bind; [apply preserves_get|]. intros s0.
  destruct (decide (is_Some (tags s0 !! t))); [|apply preserves_raise].
  intros s Hs. rewrite !bind_run. simpl.
  intros f' ids'. simpl.
  destruct (file_tags s !! PyPath.normpath f) as [ids|] eqn:Hl.
  - rewrite Hl. intros Hl'.
    apply lookup_insert_Some in Hl' as [[_ <-]|[_ Hl']]; [set_solver|by eapply Hs].
  - rewrite lookup_insert_eq, insert_insert_eq. intros Hl'.
    apply lookup_insert_Some in Hl' as [[_ <-]|[_ Hl']]; [set_solver|by eapply Hs].
Qed.

Lemma remove_tag_from_file_preserves f t :
  preserves no_empty_entry (remove_tag_from_file f t).
Proof.
  unfold remove_tag_from_file. apply preserves_bind; [apply preserves_get|]. intros s0.
  destruct (file_tags s0 !! PyPath.normpath f) as [ids|]; [|apply preserves_ret].
  destruct (decide (t ∈ ids)); [|apply preserves_ret].
  apply preserves_bind; [|intros _; apply save_preserves].
  apply preserves_modify. intros s Hs. by apply no_empty_entry_detached.
Qed.

(** C10.  [add_tag_to_file], [remove_tag_from_file] and [remove_tag] keep
    the file-tags map free of entries with an empty tag set, however they
    end; and when [remove_tag_from_file] takes the last tag id out of a
    file's set, the file's entry leaves the map. *)
Theorem no_empty_tag_sets :
  (∀ f t, preserves no_empty_entry (add_tag_to_file f t))
  ∧ (∀ f t, preserves no_empty_entry (remove_tag_from_file f t))
  ∧ (∀ depth t, preserves no_empty_entry (remove_tag depth t))
  ∧ (∀ f t s,
       file_tags s !! PyPath.normpath f = Some {[t]} →
       file_tags (snd (remove_tag_from_file f t s)) !! PyPath.normpath f = None).
Proof.
  split; [exact add_tag_to_file_preserves|].
  split; [exact remove_tag_from_file_preserves|].
  split; [exact remove_tag_preserves|].
  intros f t s Hl. unfold remove_tag_from_file. rewrite bind_run. simpl. rewrite Hl.
  rewrite decide_True by set_solver. rewrite bind_run. simpl.
  rewrite decide_True by set_solver. apply lookup_delete_eq.
Qed.

End TagInvariant.

Lemma no_empty_tag_sets_witness :
  no_empty_entry TagScenario.forest
  ∧ no_empty_entry (snd (remove_tag 5 "work" TagScenario.forest))
  ∧ file_tags (snd (remove_tag 5 "work" TagScenario.forest)) !! "/b.txt" = None
  ∧ file_tags (snd (remove_tag 5 "work" TagScenario.forest)) !! "/a.txt"
    = Some {["home"]}.
Proof.
  assert (H0 : no_empty_entry TagScenario.forest).
  { assert (Hall : map_Forall (λ _ (ids : gset string), ids ≠ ∅)
                       (file_tags TagScenario.forest)).
    { apply map_Forall_to_list. vm_compute.
      repeat (constructor; [intros He; discriminate He|]). constructor. }
    intros f ids Hl. exact (Hall f ids Hl). }
  split; [exact H0|]. split; [|split].
  - exact (proj1 (proj2 (proj2 no_empty_tag_sets)) 5 "work" TagScenario.forest H0).
  - vm_compute. reflexivity.
  - vm_compute. reflexivity.
Defined.

(** ** Lookup of files by tags *)

Section Lookup.
Implicit Types (s : Store) (ids : gset string).

Lemma selects_satisfies (match_all : bool) (tag_ids : list string) ids :
  selects match_all tag_ids ids = true ↔ satisfies match_all tag_ids ids.
Proof.
  unfold selects, satisfies. destruct match_all.
  - rewrite forallb_forall. split.
    + intros H t Ht. eapply bool_decide_eq_true_1, H. by apply list_elem_of_In.
    + intros H t Ht. apply bool_decide_eq_true_2, H. by apply list_elem_of_In.
  - rewrite existsb_true_iff. split.
    + intros (t & Ht & Hb). apply bool_decide_eq_true in Hb. eauto.
    + intros (t & Ht & Hb). exists t. split; [done|]. by apply bool_decide_eq_true.
Qed.

Lemma existence_check_passes (tg : gmap string Tag) (tag_ids : list string) s :
  (∀ t, t ∈ tag_ids → is_Some (tg !! t)) →
  for_each tag_ids (λ tag_id,
    if decide (is_Some (tg !! tag_id)) then mret tt
    else raise (ValueError "tag does not exist")) s = (Ok tt, s).
Proof.
  induction tag_ids as [|t l IH]; intros Hall; simpl; [done|].
  rewrite bind_run. rewrite decide_True by (apply Hall; set_solver).
  simpl. apply IH. intros t' Ht'. apply Hall. set_solver.
Qed.

Lemma existence_check_fails (tg : gmap string Tag) (tag_ids : list string) s :
  (∃ t, t ∈ tag_ids ∧ tg !! t = None) →
  for_each tag_ids (λ tag_id,
    if decide (is_Some (tg !! tag_id)) then mret tt
    else raise (ValueError "tag does not exist")) s
  = (Raise (ValueError "tag does not exist"), s).
Proof.
  induction tag_ids as [|t l IH]; intros (t' & Ht' & Hnone); simpl; [set_solver|].
  rewrite bind_run. destruct (decide (is_Some (tg !! t))) as [Hs|Hs]; simpl.
  - apply IH. exists t'. split; [|done].
    apply elem_of_cons in Ht' as [->|Ht']; [|done].
    rewrite Hnone in Hs. by destruct Hs.
  - done.
Qed.

(** The list [find_files_by_tags] builds before sorting. *)
Lemma collected_spec (match_all : bool) (tag_ids : list string)
    (l : list (string * gset string)) :
  flat_map (λ '(file_path, file_tag_ids),
    if match_all then
      if forallb (λ tag_id, bool_decide (tag_id ∈ (file_tag_ids : gset string))) tag_ids
      then [PyPath.normpath file_path] else []
    else
      if existsb (λ tag_id, bool_decide (tag_id ∈ (file_tag_ids : gset string))) tag_ids
      then [PyPath.normpath file_path] else []) l
  = PyPath.normpath <$>
      (fst <$> filter (λ kv, selects match_all tag_ids (snd kv) = true) l).
Proof.
  induction l as [|[k ids] l IH]; [done|].
  cbn [flat_map]. rewrite IH, filter_cons. cbn [snd].
  destruct (decide (selects match_all tag_ids ids = true)) as [Hsel|Hsel];
    unfold selects in Hsel; destruct match_all.
  - by rewrite Hsel.
  - by rewrite Hsel.
  - apply not_true_is_false in Hsel. by rewrite Hsel.
  - apply not_true_is_false in Hsel. by rewrite Hsel.
Qed.

Lemma fmap_normalised (l : list string) :
  (∀ k, k ∈ l → PyPath.normpath k = k) → PyPath.normpath <$> l = l.
Proof.
  induction l as [|k l IH]; intros H; [done|]. simpl.
  rewrite H by set_solver. f_equal. apply IH. intros k' Hk'. apply H. set_solver.
Qed.

(** C8 (amended).  For a non-empty list of ids that are all tags of the
    store, [find_files_by_tags] returns, in ascending order, the
    normalised paths of the files whose tag set holds every listed id
    ([match_all]) or some listed id; when the keys of the file-tags map
    are normalised paths these are exactly the keys whose tag set
    satisfies the query, each once.  For the empty list it returns the
    empty list, and for a list with an id that is no tag it raises
    [ValueError]. *)
Theorem find_files_by_tags_result (s : Store) (tag_ids : list string)
    (match_all : bool) :
  (tag_ids = [] → find_files_by_tags tag_ids match_all s = (Ok [], s))
  ∧ (tag_ids ≠ [] → (∃ t, t ∈ tag_ids ∧ tags s !! t = None) →
     find_files_by_tags tag_ids match_all s
     = (Raise (ValueError "tag does not exist"), s))
  ∧ (tag_ids ≠ [] → (∀ t, t ∈ tag_ids → is_Some (tags s !! t)) →
     ∃ result,
       find_files_by_tags tag_ids match_all s = (Ok result, s)
       ∧ StronglySorted String.le result
       ∧ (∀ p, p ∈ result ↔
            ∃ k ids, file_tags s !! k = Some ids ∧ p = PyPath.normpath k
                     ∧ satisfies match_all tag_ids ids)
       ∧ (keys_normalised s →
          NoDup result
          ∧ ∀ p, p ∈ result ↔
              ∃ ids, file_tags s !! p = Some ids ∧ satisfies match_all tag_ids ids)).
Proof.
  split; [by intros ->|]. split.
  - intros Hne Hmiss. destruct tag_ids as [|t0 l]; [done|].
    unfold find_files_by_tags. rewrite bind_run. unfold get at 1.
    cbv beta iota. rewrite bind_run.
    by rewrite (existence_check_fails (tags s) (t0 :: l) s Hmiss).
  - intros Hne Hall. destruct tag_ids as [|t0 l]; [done|].
    unfold find_files_by_tags. rewrite bind_run. unfold get at 1.
    cbv beta iota. rewrite bind_run.
    rewrite (existence_check_passes (tags s) (t0 :: l) s Hall).
    rewrite collected_spec.
    eexists. split; [reflexivity|].
    assert (Hmem : ∀ k, k ∈ fst <$> filter
                     (λ kv, selects match_all (t0 :: l) (snd kv) = true)
                     (map_to_list (file_tags s)) ↔
                   ∃ ids, file_tags s !! k = Some ids
                          ∧ satisfies match_all (t0 :: l) ids).
    { intros k. rewrite list_elem_of_fmap. split.
      - intros [[k' ids] [-> [Hsel Hkv]%list_elem_of_filter]].
        apply elem_of_map_to_list in Hkv. exists ids. split; [done|].
        by apply selects_satisfies.
      - intros (ids & Hl & Hsat). exists (k, ids). split; [done|].
        apply list_elem_of_filter. split; [by apply selects_satisfies|].
        by apply elem_of_map_to_list. }
    split; [|split].
    + unfold sorted. apply StronglySorted_merge_sort; apply _.
    + intros p. unfold sorted. rewrite merge_sort_Permutation.
      rewrite list_elem_of_fmap. split.
      * intros (k & -> & Hk). apply Hmem in Hk as (ids & Hl & Hsat). eauto.
      * intros (k & ids & Hl & -> & Hsat). exists k. split; [done|].
        apply Hmem. eauto.
    + intros Hnorm. rewrite fmap_normalised.
      2:{ intros k Hk. apply Hmem in Hk as (ids & Hl & _). apply Hnorm. eauto. }
      unfold sorted. split.
      * rewrite merge_sort_Permutation.
        eapply sublist_NoDup; [apply (NoDup_fst_map_to_list (file_tags s))|].
        apply fmap_sublist, sublist_filter.
      * intros p. rewrite merge_sort_Permutation. apply Hmem.
Qed.

End Lookup.

Lemma find_files_by_tags_result_witness :
  ["red"; "blue"] ≠ []
  ∧ (∀ t, t ∈ ["red"; "blue"] → is_Some (tags LookupScenario.store !! t))
  ∧ keys_normalised LookupScenario.store
  ∧ ∃ result,
      find_files_by_tags ["red"; "blue"] true LookupScenario.store
      = (Ok result, LookupScenario.store)
      ∧ NoDup result
      ∧ "/a.txt" ∈ result
      ∧ "/b.txt" ∉ result.
Proof.
  assert (Hne : ["red"; "blue"] ≠ @nil string) by discriminate.
  assert (Hall : ∀ t, t ∈ ["red"; "blue"] → is_Some (tags LookupScenario.store !! t)).
  { intros t Ht. apply elem_of_cons in Ht as [->|Ht]; [vm_compute; eauto|].
    apply list_elem_of_singleton in Ht as ->. vm_compute. eauto. }
  assert (Hnorm : keys_normalised LookupScenario.store).
  { assert (Hk : map_Forall (λ k _, PyPath.normpath k = k)
                   (file_tags LookupScenario.store)).
    { apply map_Forall_to_list. vm_compute. repeat constructor. }
    intros f [ids Hl]. exact (Hk f ids Hl). }
  split; [exact Hne|]. split; [exact Hall|]. split; [exact Hnorm|].
  destruct (proj2 (proj2 (find_files_by_tags_result LookupScenario.store
              ["red"; "blue"] true)) Hne Hall) as (result & Hrun & _ & _ & Hkeys).
  destruct (Hkeys Hnorm) as [Hnd Hmem].
  exists result. split; [exact Hrun|]. split; [exact Hnd|]. split.
  - apply Hmem. exists {["red"; "blue"]}. split; [vm_compute; reflexivity|].
    intros t Ht. apply elem_of_cons in Ht as [->|Ht]; [vm_compute; reflexivity|].
    apply list_elem_of_singleton in Ht as ->. vm_compute. reflexivity.
  - intros (ids & Hl & Hsat)%Hmem. vm_compute in Hl. injection Hl as <-.
    specialize (Hsat "red" (list_elem_of_here _ _)).
    vm_compute in Hsat. discriminate Hsat.
Defined.

(** Where C8 as stated fails: every tag set is a superset of the empty
    list of ids, and the lookup for the empty list returns no file. *)
Lemma find_files_by_tags_claim_fails :
  ¬ ∃ result,
      find_files_by_tags [] true LookupScenario.store
      = (Ok result, LookupScenario.store)
      ∧ ∀ p, p ∈ result ↔
             ∃ ids, file_tags LookupScenario.store !! p = Some ids
                    ∧ satisfies true [] ids.
Proof.
  intros (result & Hrun & Hmem). injection Hrun as <-.
  assert (Hin : "/b.txt" ∈ @nil string).
  { apply Hmem. exists {["blue"]}. split; [vm_compute; reflexivity|].
    intros t Ht. by apply elem_of_nil in Ht. }
  by apply elem_of_nil in Hin.
Qed.

(** * Further properties *)

Import Inventory.

(** ** The removal of a directory by [_remove_directory] *)

Section RemoveDirectory.
Context {W : Type}.
Implicit Types (w : World W).



End RemoveDirectory.

(** ** The handlers of the watcher *)

Section Handlers.
Context {W : Type}.
Implicit Types (w : World W).








End Handlers.

Section WriteThrough.
Context {W : Type}.
Implicit Types (w : World W).






Lemma same_config_set_files (m : Manager W) f : same_config m (set_files f m).
Proof. repeat split. Qed.

Lemma same_config_set_directories (m : Manager W) f :
  same_config m (set_directories f m).
Proof. repeat split. Qed.


End WriteThrough.


(** ** The registry of callbacks *)

Section Registry.
Context {W : Type}.
Implicit Types (w : World W) (cb : callback W).

Lemma filter_keeps_all (i : nat) (l : list nat) :
  i ∉ l → filter (λ j, j ≠ i) l = l.
Proof.
  induction l as [|j l IH]; intros Hi; [done|]. rewrite filter_cons.
  rewrite decide_True by set_solver. f_equal. apply IH. set_solver.
Qed.

Lemma remove_first_ids (i : nat) (l : list (callback W)) :
  NoDup (cb_id <$> l) →
  cb_id <$> remove_first i l = filter (λ j, j ≠ i) (cb_id <$> l).
Proof.
  induction l as [|cb l IH]; intros Hnd; [done|].
  cbn [fmap list_fmap remove_first] in *. apply NoDup_cons in Hnd as [Hcb Hnd].
  rewrite filter_cons.
  destruct (decide (cb_id cb = i)) as [<-|Hne].
  - rewrite decide_False by (by intros ?). by rewrite filter_keeps_all.
  - rewrite decide_True by done. cbn [fmap list_fmap]. f_equal. by apply IH.
Qed.

(** X7.  The registry never holds a callback twice.  Registering keeps
    the identities duplicate-free and appends a callback that was not
    registered; registering one that is registered changes nothing.
    Unregistering removes it (and nothing else) when it is registered
    and changes nothing when it is not.  Neither touches the index. *)
Theorem callback_registry (cb : callback W) w :
  NoDup (callback_ids (mgr w)) →
  (∃ w',
     add_file_change_callback cb w = (Ok tt, w')
     ∧ NoDup (callback_ids (mgr w'))
     ∧ callback_ids (mgr w') =
         (if bool_decide (cb_id cb ∈ callback_ids (mgr w))
          then callback_ids (mgr w) else callback_ids (mgr w) ++ [cb_id cb])
     ∧ files (mgr w') = files (mgr w)
     ∧ directories (mgr w') = directories (mgr w))
  ∧ (∃ w',
       remove_file_change_callback cb w = (Ok tt, w')
       ∧ NoDup (callback_ids (mgr w'))
       ∧ callback_ids (mgr w') = filter (λ j, j ≠ cb_id cb) (callback_ids (mgr w))
       ∧ files (mgr w') = files (mgr w)
       ∧ directories (mgr w') = directories (mgr w)).
Proof.
  intros Hnd. split.
  - unfold add_file_change_callback. rewrite bind_run. unfold get at 1.
    cbv beta iota. fold (callback_ids (mgr w)).
    destruct (bool_decide (cb_id cb ∈ callback_ids (mgr w))) eqn:Hin.
    + exists w. repeat split; done.
    + eexists. split; [reflexivity|]. simpl. unfold callback_ids. simpl.
      rewrite fmap_app. simpl. repeat split; try done.
      apply NoDup_app. split; [done|]. split; [|apply NoDup_singleton].
      intros j Hj ->%list_elem_of_singleton.
      by apply bool_decide_eq_false in Hin.
  - unfold remove_file_change_callback. rewrite bind_run. unfold get at 1.
    cbv beta iota. fold (callback_ids (mgr w)).
    destruct (bool_decide (cb_id cb ∈ callback_ids (mgr w))) eqn:Hin.
    + eexists. split; [reflexivity|]. simpl. unfold callback_ids in *. simpl.
      rewrite remove_first_ids by done. repeat split; try done.
      by apply NoDup_filter.
    + exists w. split; [done|]. split; [done|]. split; [|done].
      apply bool_decide_eq_false in Hin. by rewrite filter_keeps_all.
Qed.

End Registry.

Lemma callback_registry_witness :
  NoDup (callback_ids (mgr Scenario.world0))
  ∧ ∃ w',
      add_file_change_callback (Scenario.recorder 1) Scenario.world0 = (Ok tt, w')
      ∧ callback_ids (mgr w') = [0; 1].
Proof.
  assert (Hnd : NoDup (callback_ids (mgr Scenario.world0))).
  { vm_compute. repeat constructor; set_solver. }
  split; [exact Hnd|].
  destruct (proj1 (callback_registry (Scenario.recorder 1) Scenario.world0 Hnd))
    as (w' & Hrun & _ & Hids & _).
  exists w'. split; [exact Hrun|]. rewrite Hids. reflexivity.
Defined.

(** ** Queries *)

Section FindFiles.
Context {W : Type}.

Lemma find_files_keeps_spec (fs : fs_node) (pattern : option string)
    (min_size max_size : option Z) (p : string) (info : FileInfo) :
  find_files_keeps fs pattern min_size max_size p info = true ↔
  path_exists fs p = true
  ∧ match pattern with
    | Some pat => pat = "" ∨ Fnmatch.fnmatch (basename p) pat = true
    | None => True
    end
  ∧ match min_size with Some lo => (lo ≤ FileManager.size info)%Z | None => True end
  ∧ match max_size with Some hi => (FileManager.size info ≤ hi)%Z | None => True end.
Proof.
  unfold find_files_keeps.
  destruct (path_exists fs p); simpl; [|naive_solver].
  assert (Hpat : match pattern with
                 | Some pat => negb (bool_decide (pat = ""))
                               && negb (Fnmatch.fnmatch (basename p) pat)
                 | None => false
                 end = false ↔
                 match pattern with
                 | Some pat => pat = "" ∨ Fnmatch.fnmatch (basename p) pat = true
                 | None => True
                 end).
  { destruct pattern as [pat|]; [|done].
    rewrite andb_false_iff, !negb_false_iff, bool_decide_eq_true. done. }
  destruct (match pattern with Some _ => _ | None => false end).
  { split; [done|]. intros (_ & Hp & _). apply Hpat in Hp. done. }
  assert (Hlo : match min_size with
                | Some lo => bool_decide (FileManager.size info < lo)%Z
                | None => false
                end = false ↔
                match min_size with
                | Some lo => (lo ≤ FileManager.size info)%Z | None => True end).
  { destruct min_size as [lo|]; [|done]. rewrite bool_decide_eq_false. lia. }
  destruct (match min_size with Some _ => _ | None => false end).
  { split; [done|]. intros (_ & _ & Hl & _). apply Hlo in Hl. done. }
  assert (Hhi : match max_size with
                | Some hi => bool_decide (hi < FileManager.size info)%Z
                | None => false
                end = false ↔
                match max_size with
                | Some hi => (FileManager.size info ≤ hi)%Z | None => True end).
  { destruct max_size as [hi|]; [|done]. rewrite bool_decide_eq_false. lia. }
  destruct (match max_size with Some _ => _ | None => false end).
  { split; [done|]. intros (_ & _ & _ & Hh). apply Hhi in Hh. done. }
  split; [|done]. intros _. split; [done|].
  split; [by apply Hpat|]. split; [by apply Hlo|by apply Hhi].
Qed.

Lemma find_files_collected (keeps : string → FileInfo → bool)
    (l : list (string * FileInfo)) :
  flat_map (λ '(file_path, info), if keeps file_path info then [file_path] else []) l
  = fst <$> filter (λ kv, keeps (fst kv) (snd kv) = true) l.
Proof.
  induction l as [|[k info] l IH]; [done|].
  cbn [flat_map]. rewrite IH, filter_cons. cbn [fst snd].
  destruct (decide (keeps k info = true)) as [Hk|Hk].
  - by rewrite Hk.
  - apply not_true_is_false in Hk. by rewrite Hk.
Qed.

(** X8.  [find_files] returns, in ascending order and without
    duplicates, exactly the tracked paths that still exist on the disk,
    whose base name matches the pattern (a missing or empty pattern
    matches every name) and whose recorded size lies within the bounds
    that are given; tracked paths that are gone from the disk are left
    out and stay in the index. *)
Theorem find_files_result (fs : fs_node) (pattern : option string)
    (min_size max_size : option Z) (m : Manager W) :
  StronglySorted String.le (find_files fs pattern min_size max_size m)
  ∧ NoDup (find_files fs pattern min_size max_size m)
  ∧ ∀ p, p ∈ find_files fs pattern min_size max_size m ↔
      ∃ info,
        files m !! p = Some info
        ∧ path_exists fs p = true
        ∧ match pattern with
          | Some pat => pat = "" ∨ Fnmatch.fnmatch (basename p) pat = true
          | None => True
          end
        ∧ match min_size with
          | Some lo => (lo ≤ FileManager.size info)%Z | None => True end
        ∧ match max_size with
          | Some hi => (FileManager.size info ≤ hi)%Z | None => True end.
Proof.
  unfold find_files, sorted. rewrite find_files_collected.
  split; [apply StronglySorted_merge_sort; apply _|]. split.
  - rewrite merge_sort_Permutation.
    eapply sublist_NoDup; [apply (NoDup_fst_map_to_list (files m))|].
    apply fmap_sublist, sublist_filter.
  - intros p. rewrite merge_sort_Permutation, list_elem_of_fmap. split.
    + intros [[k info] [-> [Hk Hkv]%list_elem_of_filter]].
      apply elem_of_map_to_list in Hkv. exists info. split; [done|].
      by apply find_files_keeps_spec.
    + intros (info & Hl & Hrest). exists (p, info). split; [done|].
      apply list_elem_of_filter. split; [by apply find_files_keeps_spec|].
      by apply elem_of_map_to_list.
Qed.

End FindFiles.

(** ** The include check of the pattern engine *)

Lemma split_include_normal (patterns : list string) :
  snd (split_include patterns) =
  unslash <$> filter (λ p, is_reinclude p = false) patterns.
Proof.
  induction patterns as [|p patterns IH]; simpl; [done|].
  destruct (split_include patterns) as [re no]. simpl in IH.
  rewrite filter_cons.
  destruct (decide (is_reinclude p = false)) as [Hp|Hp]; unfold is_reinclude in Hp.
  - rewrite Hp. simpl. by rewrite IH.
  - apply not_false_is_true in Hp. rewrite Hp. done.
Qed.

Lemma include_file_decision_not_excluded (incl excl : list string) (p : string) :
  (∀ e, e ∈ excl → pattern_matches p (exclude_form e) = false) →
  include_file_decision incl excl p =
  existsb (λ i, pattern_matches p (unslash i))
          (filter (λ i, is_reinclude i = false) incl).
Proof.
  intros Hno. unfold include_file_decision.
  pose proof (split_include_normal incl) as Hnorm.
  destruct (split_include incl) as [re no]. simpl in Hnorm. subst no.
  rewrite exclude_loop_spec. simpl.
  apply existsb_false_iff in Hno. rewrite Hno.
  rewrite match_loop_spec.
  induction (filter _ incl) as [|i l IH]; simpl; [done|]. by f_equal.
Qed.

(** X9.  When no exclude pattern matches the relative path [p] of a
    file, the file is included exactly when some entry of the include
    list that is not a reinclude pattern matches [p]: reinclude patterns
    take no part in the include check, so an include list made of
    reinclude patterns only includes no file that is not excluded. *)
Theorem include_check (incl excl : list string) (p : string) :
  (∀ e, e ∈ excl → pattern_matches p (exclude_form e) = false) →
  (include_file_decision incl excl p = true ↔
   ∃ i, i ∈ incl ∧ is_reinclude i = false ∧ pattern_matches p (unslash i) = true)
  ∧ ((∀ i, i ∈ incl → is_reinclude i = true) →
     include_file_decision incl excl p = false).
Proof.
  intros Hno. rewrite (include_file_decision_not_excluded incl excl p Hno). split.
  - rewrite existsb_true_iff. split.
    + intros (i & [Hre Hi]%list_elem_of_filter & Hm). eauto.
    + intros (i & Hi & Hre & Hm). exists i. split; [|done].
      by apply list_elem_of_filter.
  - intros Hall. apply existsb_false_iff.
    intros i [Hre Hi]%list_elem_of_filter. rewrite (Hall i Hi) in Hre. done.
Qed.

Lemma include_check_witness :
  (∀ e, e ∈ ["temp/*"] → pattern_matches "src/a.txt" (exclude_form e) = false)
  ∧ include_file_decision ["!!temp/keep/*"] ["temp/*"] "src/a.txt" = false
  ∧ include_file_decision ["*.txt"; "!!temp/keep/*"] ["temp/*"] "src/a.txt" = true.
Proof.
  assert (Hno : ∀ e, e ∈ ["temp/*"] →
                     pattern_matches "src/a.txt" (exclude_form e) = false).
  { intros e He. apply list_elem_of_singleton in He as ->. vm_compute. reflexivity. }
  split; [exact Hno|]. split.
  - apply (proj2 (include_check ["!!temp/keep/*"] ["temp/*"] "src/a.txt" Hno)).
    intros i Hi. apply list_elem_of_singleton in Hi as ->. vm_compute. reflexivity.
  - apply (proj1 (include_check ["*.txt"; "!!temp/keep/*"] ["temp/*"] "src/a.txt" Hno)).
    exists "*.txt". split; [apply list_elem_of_here|]. split; vm_compute; reflexivity.
Defined.

Lemma fnmatch_star (s : string) : Fnmatch.fnmatch s "*" = true.
Proof.
  unfold Fnmatch.fnmatch. simpl.
  induction (PyStr.chars s) as [|c l IH]; [done|]. simpl in *. exact IH.
Qed.

Lemma sub_paths_head (p : string) :
  ∃ q rest, sub_paths p = q :: rest.
Proof.
  unfold sub_paths.
  assert (Hne : ∃ x l, PyStr.split PyStr.slash p = x :: l).
  { induction p as [|c p IH]; simpl; [eauto|].
    destruct (decide (c = PyStr.slash)); [eauto|].
    destruct IH as (x & l & ->). eauto. }
  destruct Hne as (x & l & ->). simpl. eauto.
Qed.

(** X10.  The default rules track everything: with the include pattern
    ["*"] in the list and no exclude pattern, as a manager constructed
    without patterns has them, the pattern engine accepts every file
    path and every directory path. *)
Theorem default_rules_accept_all {W : Type} (m : Manager W) (path : string) :
  "*" ∈ include_patterns m →
  exclude_patterns m = [] →
  _should_include_file m path = true
  ∧ _should_include_directory m path = true.
Proof.
  intros Hstar Hex. unfold _should_include_file, _should_include_directory.
  rewrite Hex. split.
  - rewrite include_file_decision_not_excluded
      by (intros e He; by apply elem_of_nil in He).
    apply existsb_true_iff. exists "*". split.
    + apply list_elem_of_filter. split; [reflexivity|exact Hstar].
    + change (unslash "*") with "*". unfold pattern_matches.
      change (PyStr.startswith "*" "/") with false. cbv iota.
      destruct (sub_paths_head (unslash (PyPath.relpath path (root_dir m))))
        as (q & rest & ->).
      simpl. by rewrite fnmatch_star.
  - by rewrite include_directory_decision_spec.
Qed.

Lemma default_rules_accept_all_witness :
  "*" ∈ include_patterns (mgr SnapshotScenario.default_loader)
  ∧ exclude_patterns (mgr SnapshotScenario.default_loader) = []
  ∧ _should_include_file (mgr SnapshotScenario.default_loader)
      "/r/deep/down/.hidden" = true.
Proof.
  assert (Hstar : "*" ∈ include_patterns (mgr SnapshotScenario.default_loader))
    by apply list_elem_of_here.
  split; [exact Hstar|]. split; [reflexivity|].
  exact (proj1 (default_rules_accept_all (mgr SnapshotScenario.default_loader)
                  "/r/deep/down/.hidden" Hstar eq_refl)).
Defined.

(** ** The scan *)

Section Scan.
Context {W : Type}.
Implicit Types (w v : World W) (m : Manager W).




























Lemma index_step_save : index_step (FileManager._save_data (W:=W)).
Proof. split; [by eexists|]. intros w1 w2 Heq. done. Qed.












End Scan.

(** ** Construction *)

Section Init.
Context {W : Type}.
Implicit Types (w v : World W) (m : Manager W).




End Init.


(** ** Creating tags *)

Import Tagging.

Section CreateTagFacts.
Variable lower : string → string.
Implicit Types (tg : gmap string Tag) (s : Store).

Lemma string_app_length (a b : string) :
  String.length (a +:+ b) = String.length a + String.length b.
Proof. induction a as [|c a IH]; simpl; [done|]. by rewrite IH. Qed.

Lemma candidate_inj (base : string) : Inj (=) (=) (candidate base).
Proof.
  intros [|j] [|k] H; simpl in H; [done| | |].
  - exfalso. apply (f_equal String.length) in H.
    rewrite string_app_length in H. simpl in H. lia.
  - exfalso. apply (f_equal String.length) in H.
    rewrite string_app_length in H. simpl in H. lia.
  - apply (inj (String.app base)) in H. apply (inj (String.app "-")) in H.
    by apply (inj pretty) in H.
Qed.

Lemma candidates_bounded tg (base : string) (k : nat) :
  (∀ j, j < k → is_Some (tg !! candidate base j)) → k ≤ base.size tg.
Proof.
  intros Htaken.
  assert (Hsub : candidate base <$> seq 0 k ⊆+ elements (dom tg)).
  { apply NoDup_submseteq.
    - apply NoDup_fmap; [apply candidate_inj|apply NoDup_seq].
    - intros x [j [-> Hj]]%list_elem_of_fmap. apply elem_of_seq in Hj.
      apply elem_of_elements, elem_of_dom, Htaken. lia. }
  apply submseteq_length in Hsub.
  rewrite length_fmap, length_seq in Hsub.
  by rewrite <- size_dom.
Qed.

Lemma fresh_id_runs tg (base : string) (fuel k : nat) :
  (∀ j, j < k → is_Some (tg !! candidate base j)) →
  base.size tg < k + fuel →
  ∃ n, k ≤ n
       ∧ fresh_id fuel tg base (candidate base k) (S k) = Some (candidate base n)
       ∧ tg !! candidate base n = None
       ∧ ∀ j, j < n → is_Some (tg !! candidate base j).
Proof.
  revert k. induction fuel as [|fuel IH]; intros k Htaken Hfuel.
  - apply candidates_bounded in Htaken. lia.
  - simpl. destruct (decide (is_Some (tg !! candidate base k))) as [Hk|Hk].
    + destruct (IH (S k)) as (n & Hn & Hrun & Hfree & Hbelow).
      * intros j Hj. destruct (decide (j = k)) as [->|]; [done|].
        apply Htaken. lia.
      * lia.
      * exists n. split; [lia|]. split; [exact Hrun|done].
    + exists k. split; [done|]. split; [done|]. split; [|done].
      by apply eq_None_not_Some.
Qed.

Lemma parent_rejected_spec tg (parent : option string) :
  parent_rejected tg parent = true ↔
  ∃ p, parent = Some p ∧ p ≠ "" ∧ tg !! p = None.
Proof.
  unfold parent_rejected. destruct parent as [p|].
  - rewrite andb_true_iff, !bool_decide_eq_true. naive_solver.
  - naive_solver.
Qed.

Lemma create_tag_runs (fuel : nat) (name description : string)
    (parent : option string) s :
  base.size (tags s) < fuel →
  parent_rejected (tags s) parent = false →
  ∃ n s',
    create_tag lower fuel name description parent s
      = (Ok (Some (candidate (slug lower name) n)), s')
    ∧ tags s !! candidate (slug lower name) n = None
    ∧ (∀ j, j < n → is_Some (tags s !! candidate (slug lower name) j))
    ∧ tags s' = <[candidate (slug lower name) n :=
                   {| name := name; description := description; parent := parent |}]>
                (tags s)
    ∧ file_tags s' = file_tags s
    ∧ persisted s'.
Proof.
  intros Hfuel Hparent. unfold create_tag. rewrite bind_run. unfold get at 1.
  cbv beta iota. rewrite Hparent.
  destruct (fresh_id_runs (tags s) (slug lower name) fuel 0)
    as (n & _ & Hrun & Hfree & Hbelow); [intros j Hj; lia|lia|].
  change (candidate (slug lower name) 0) with (slug lower name) in Hrun.
  rewrite Hrun. eexists n, _. split; [reflexivity|]. simpl.
  repeat split; done.
Qed.

(** X14.  [create_tag] with a non-empty parent id that is no tag raises
    [ValueError] and leaves the store as it was.  Otherwise it returns
    (the id loop ends within one round more than there are tags) the
    first free id among the slug of the name and the slug followed by
    [-1], [-2], ...: the id was not in use, every earlier candidate was,
    the new tag is stored under it with the name, description and parent
    given, every other tag and every file's tag set are as before, and
    [tags.json] holds the result.  An empty parent string is not
    checked. *)
Theorem create_tag_result (fuel : nat) (name description : string)
    (parent : option string) s :
  base.size (tags s) < fuel →
  (parent_rejected (tags s) parent = true ↔
   ∃ p, parent = Some p ∧ p ≠ "" ∧ tags s !! p = None)
  ∧ if parent_rejected (tags s) parent then
      create_tag lower fuel name description parent s
        = (Raise (ValueError "parent tag does not exist"), s)
    else
      ∃ n s',
        create_tag lower fuel name description parent s
          = (Ok (Some (candidate (slug lower name) n)), s')
        ∧ tags s !! candidate (slug lower name) n = None
        ∧ (∀ j, j < n → is_Some (tags s !! candidate (slug lower name) j))
        ∧ tags s' = <[candidate (slug lower name) n :=
                       {| name := name; description := description;
                          parent := parent |}]> (tags s)
        ∧ file_tags s' = file_tags s
        ∧ persisted s'.
Proof.
  intros Hfuel. split; [apply parent_rejected_spec|].
  destruct (parent_rejected (tags s) parent) eqn:Hparent.
  - unfold create_tag. rewrite bind_run. unfold get at 1. cbv beta iota.
    by rewrite Hparent.
  - by apply create_tag_runs.
Qed.

End CreateTagFacts.

Lemma create_tag_result_witness :
  base.size (tags TagScenario.forest) < 5
  ∧ ∃ s',
      create_tag ascii_lower 5 "Work" "again" (Some "home") TagScenario.forest
        = (Ok (Some "work-1"), s')
      ∧ tags s' !! "work-1" =
          Some {| name := "Work"; description := "again"; parent := Some "home" |}.
Proof.
  assert (Hsize : base.size (tags TagScenario.forest) < 5).
  { vm_compute. lia. }
  split; [exact Hsize|].
  destruct (create_tag_result ascii_lower 5 "Work" "again" (Some "home")
              TagScenario.forest Hsize) as [_ H].
  assert (Hp : parent_rejected (tags TagScenario.forest) (Some "home") = false).
  { vm_compute. reflexivity. }
  rewrite Hp in H. destruct H as (n & s' & Hrun & Hfree & Hbelow & Htags & _).
  assert (Hn : n = 1).
  { destruct n as [|[|n]].
    - vm_compute in Hfree. discriminate.
    - reflexivity.
    - destruct (Hbelow 1) as [tag Htag]; [lia|]. vm_compute in Htag. discriminate. }
  subst n. exists s'. split.
  - rewrite Hrun. vm_compute. reflexivity.
  - rewrite Htags. apply lookup_insert_eq.
Defined.

(** ** Tags of files *)

Section FileTags.
Implicit Types (tg : gmap string Tag) (s : Store) (f t : string).

Lemma fmap_set_of_elements (ft : gmap string (gset string)) :
  (list_to_set <$> (elements <$> ft) : gmap string (gset string)) = ft.
Proof.
  rewrite <- map_fmap_compose. rewrite <- (map_fmap_id ft) at 2.
  apply map_fmap_ext. intros f ids _. simpl. apply list_to_set_elements_L.
Qed.

(** X15.  The tag store survives a save and a load: [_load_data] on what
    [_save_data] wrote gives back the tags and every file's tag set,
    whatever the loading manager held before; and without [tags.json]
    [_load_data] changes nothing. *)
Theorem tag_store_round_trip s tg (ft : gmap string (gset string)) :
  (∃ s1 s2,
     TagManager._save_data s = (Ok tt, s1)
     ∧ TagManager._load_data
         {| tags := tg; file_tags := ft; tags_file := tags_file s1 |} = (Ok tt, s2)
     ∧ tags s2 = tags s
     ∧ file_tags s2 = file_tags s
     ∧ persisted s2)
  ∧ TagManager._load_data {| tags := tg; file_tags := ft; tags_file := None |}
    = (Ok tt, {| tags := tg; file_tags := ft; tags_file := None |}).
Proof.
  split; [|reflexivity].
  eexists _, _. split; [reflexivity|]. split; [reflexivity|]. simpl.
  split; [reflexivity|]. split; [apply fmap_set_of_elements|].
  unfold persisted. simpl. by rewrite fmap_set_of_elements.
Qed.

Lemma add_tag_to_file_runs f t s :
  is_Some (tags s !! t) →
  add_tag_to_file f t s =
  (Ok tt,
   let ft := <[PyPath.normpath f := get_file_tags f s ∪ {[t]}]> (file_tags s) in
   {| tags := tags s; file_tags := ft;
      tags_file := Some {| data_tags := tags s; data_file_tags := elements <$> ft |} |}).
Proof.
  intros Ht. unfold add_tag_to_file. rewrite bind_run. unfold get at 1.
  cbv beta iota. rewrite decide_True by done.
  rewrite bind_run. unfold modify at 1. cbv beta iota.
  rewrite bind_run. unfold modify at 1. cbv beta iota.
  unfold TagManager._save_data, modify, get_file_tags, set_file_tags. simpl.
  destruct (file_tags s !! PyPath.normpath f) as [ids|] eqn:Hl; simpl.
  - by rewrite Hl.
  - rewrite lookup_insert_eq, insert_insert_eq. reflexivity.
Qed.

Lemma get_file_tags_other f g s s' (ids : gset string) :
  file_tags s' = <[PyPath.normpath f := ids]> (file_tags s) →
  PyPath.normpath g ≠ PyPath.normpath f →
  get_file_tags g s' = get_file_tags g s.
Proof.
  intros Hft Hne. unfold get_file_tags. by rewrite Hft, lookup_insert_ne.
Qed.

(** X16.  [add_tag_to_file] on an id that is no tag raises [ValueError]
    and leaves the store as it was.  On a tag it returns; afterwards the
    file's tag set, under its normalised path, is the old one with the
    id added, no other entry and no tag has changed, [tags.json] holds
    the result, and adding the same id again changes nothing. *)
Theorem add_tag_to_file_effect f t s :
  if decide (is_Some (tags s !! t)) then
    ∃ s',
      add_tag_to_file f t s = (Ok tt, s')
      ∧ tags s' = tags s
      ∧ file_tags s' =
          <[PyPath.normpath f := get_file_tags f s ∪ {[t]}]> (file_tags s)
      ∧ get_file_tags f s' = get_file_tags f s ∪ {[t]}
      ∧ persisted s'
      ∧ add_tag_to_file f t s' = (Ok tt, s')
  else
    add_tag_to_file f t s = (Raise (ValueError "tag does not exist"), s).
Proof.
  destruct (decide (is_Some (tags s !! t))) as [Ht|Ht].
  - rewrite (add_tag_to_file_runs f t s Ht). eexists. split; [reflexivity|].
    simpl. split; [reflexivity|]. split; [reflexivity|].
    assert (Hget : ∀ ids, get_file_tags f
              {| tags := tags s;
                 file_tags := <[PyPath.normpath f := ids]> (file_tags s);
                 tags_file := Some {| data_tags := tags s;
                   data_file_tags :=
                     elements <$> <[PyPath.normpath f := ids]> (file_tags s) |} |}
              = ids).
    { intros ids. unfold get_file_tags. simpl. by rewrite lookup_insert_eq. }
    split; [apply Hget|]. split; [reflexivity|].
    rewrite add_tag_to_file_runs by done. simpl. rewrite Hget.
    rewrite insert_insert_eq.
    by replace (get_file_tags f s ∪ {[t]} ∪ {[t]}) with (get_file_tags f s ∪ {[t]})
      by set_solver.
  - unfold add_tag_to_file. rewrite bind_run. unfold get at 1. cbv beta iota.
    by rewrite decide_False by done.
Qed.

Lemma remove_tag_from_file_runs f t s :
  remove_tag_from_file f t s =
  (Ok tt,
   if decide (t ∈ get_file_tags f s) then
     let ft :=
       if decide (get_file_tags f s ∖ {[t]} = ∅)
       then delete (PyPath.normpath f) (file_tags s)
       else <[PyPath.normpath f := get_file_tags f s ∖ {[t]}]> (file_tags s) in
     {| tags := tags s; file_tags := ft;
        tags_file := Some {| data_tags := tags s; data_file_tags := elements <$> ft |} |}
   else s).
Proof.
  unfold remove_tag_from_file. rewrite bind_run. unfold get at 1. cbv beta iota.
  unfold get_file_tags.
  destruct (file_tags s !! PyPath.normpath f) as [ids|] eqn:Hl; simpl.
  - destruct (decide (t ∈ ids)); [|done].
    rewrite bind_run. unfold modify at 1. cbv beta iota.
    unfold TagManager._save_data, modify, set_file_tags. simpl.
    by destruct (decide (ids ∖ {[t]} = ∅)).
  - by rewrite decide_False by set_solver.
Qed.

(** X17.  [remove_tag_from_file] always returns, whether or not the id
    is a tag and the file has an entry.  Afterwards the file's tag set
    is the old one without the id; the entry is gone when that set is
    empty; no other entry and no tag has changed.  When the file did not
    carry the id the store is left exactly as it was, [tags.json]
    included; otherwise [tags.json] holds the result. *)
Theorem remove_tag_from_file_effect f t s :
  ∃ s',
    remove_tag_from_file f t s = (Ok tt, s')
    ∧ tags s' = tags s
    ∧ get_file_tags f s' = get_file_tags f s ∖ {[t]}
    ∧ (∀ g, g ≠ PyPath.normpath f → file_tags s' !! g = file_tags s !! g)
    ∧ (file_tags s' !! PyPath.normpath f = Some ∅ ↔
       file_tags s !! PyPath.normpath f = Some ∅)
    ∧ if decide (t ∈ get_file_tags f s) then persisted s' else s' = s.
Proof.
  rewrite remove_tag_from_file_runs. eexists. split; [reflexivity|].
  destruct (decide (t ∈ get_file_tags f s)) as [Ht|Ht].
  - assert (Hl : file_tags s !! PyPath.normpath f = Some (get_file_tags f s)).
    { unfold get_file_tags in *.
      destruct (file_tags s !! PyPath.normpath f); [done|set_solver]. }
    simpl. split; [reflexivity|].
    destruct (decide (get_file_tags f s ∖ {[t]} = ∅)) as [He|He].
    + split; [|split; [|split]].
      * unfold get_file_tags at 1. simpl. by rewrite lookup_delete_eq, He.
      * intros g Hg. by rewrite lookup_delete_ne.
      * rewrite lookup_delete_eq, Hl. split; [done|]. intros [= Hids]. set_solver.
      * reflexivity.
    + split; [|split; [|split]].
      * unfold get_file_tags at 1. simpl. by rewrite lookup_insert_eq.
      * intros g Hg. by rewrite lookup_insert_ne.
      * rewrite lookup_insert_eq, Hl. split; intros [= Hids]; set_solver.
      * reflexivity.
  - split; [reflexivity|]. split; [set_solver|]. done.
Qed.

(** X18.  Adding a tag to a file that does not carry it and removing it
    again gives back every file's tag set as [get_file_tags] reports it,
    and the tags. *)
Theorem add_then_remove_tag f t s :
  is_Some (tags s !! t) →
  t ∉ get_file_tags f s →
  ∃ s1 s2,
    add_tag_to_file f t s = (Ok tt, s1)
    ∧ remove_tag_from_file f t s1 = (Ok tt, s2)
    ∧ tags s2 = tags s
    ∧ ∀ g, get_file_tags g s2 = get_file_tags g s.
Proof.
  intros Ht Hnot. rewrite add_tag_to_file_runs by done.
  eexists _, _. split; [reflexivity|]. rewrite remove_tag_from_file_runs.
  split; [reflexivity|].
  set (nf := PyPath.normpath f).
  assert (Hget : get_file_tags f
            {| tags := tags s;
               file_tags := <[nf := get_file_tags f s ∪ {[t]}]> (file_tags s);
               tags_file := Some {| data_tags := tags s;
                 data_file_tags :=
                   elements <$> <[nf := get_file_tags f s ∪ {[t]}]> (file_tags s) |} |}
            = get_file_tags f s ∪ {[t]}).
  { unfold get_file_tags at 1. simpl. fold nf. by rewrite lookup_insert_eq. }
  cbv zeta. rewrite Hget. rewrite decide_True by set_solver.
  assert (Hback : (get_file_tags f s ∪ {[t]}) ∖ {[t]} = get_file_tags f s)
    by set_solver.
  rewrite Hback. split; [by destruct (decide (get_file_tags f s = ∅))|].
  intros g. unfold get_file_tags at 1. fold nf.
  destruct (decide (get_file_tags f s = ∅)) as [He|He]; simpl.
  - rewrite delete_insert_eq.
    destruct (decide (PyPath.normpath g = nf)) as [Hg|Hg].
    + rewrite Hg, lookup_delete_eq. simpl. unfold get_file_tags in *.
      rewrite Hg. fold nf. fold nf in He. by rewrite He.
    + by rewrite lookup_delete_ne.
  - rewrite insert_insert_eq.
    destruct (decide (PyPath.normpath g = nf)) as [Hg|Hg].
    + rewrite Hg, lookup_insert_eq. simpl. unfold get_file_tags. by rewrite Hg.
    + by rewrite lookup_insert_ne.
Qed.

Lemma add_then_remove_tag_witness :
  is_Some (tags TagScenario.forest !! "home")
  ∧ ("home" ∉ get_file_tags "/b.txt" TagScenario.forest)
  ∧ ∃ s1 s2,
      add_tag_to_file "/b.txt" "home" TagScenario.forest = (Ok tt, s1)
      ∧ remove_tag_from_file "/b.txt" "home" s1 = (Ok tt, s2)
      ∧ tags s2 = tags TagScenario.forest
      ∧ ∀ g, get_file_tags g s2 = get_file_tags g TagScenario.forest.
Proof.
  assert (H1 : is_Some (tags TagScenario.forest !! "home")).
  { vm_compute. eauto. }
  assert (H2 : "home" ∉ get_file_tags "/b.txt" TagScenario.forest).
  { apply (bool_decide_unpack _). vm_compute. exact I. }
  split; [exact H1|]. split; [exact H2|].
  exact (add_then_remove_tag "/b.txt" "home" TagScenario.forest H1 H2).
Defined.

End FileTags.

(** ** Removal, however it ends *)

Lemma tc_mono {A} (R R' : relation A) (x y : A) :
  (∀ a b, R a b → R' a b) → tc R x y → tc R' x y.
Proof.
  intros Hsub Hxy. induction Hxy as [x y Hxy|x y z Hxy _ IH].
  - by apply tc_once, Hsub.
  - eapply tc_l; [by apply Hsub|exact IH].
Qed.

Lemma tc_first {A} (R : relation A) (x y : A) :
  tc R x y → ∃ z, R x z ∧ rtc R z y.
Proof.
  intros [x' y' Hxy|x' z y' Hxz Hzy].
  - exists y'. split; [done|apply rtc_refl].
  - exists z. split; [done|by apply tc_rtc].
Qed.

Lemma tc_last {A} (R : relation A) (x y : A) :
  tc R x y → ∃ z, rtc R x z ∧ R z y.
Proof.
  intros Hxy. induction Hxy as [x y Hxy|x y z Hxy _ (w & Hyw & Hwz)].
  - exists x. split; [apply rtc_refl|done].
  - exists w. split; [by eapply rtc_l|done].
Qed.

Section Pruning.
Implicit Types (tg : gmap string Tag) (s : Store) (t c x : string).

Lemma lookup_None_weaken tg tg' x : tg' ⊆ tg → tg !! x = None → tg' !! x = None.
Proof.
  intros Hsub Hx. destruct (tg' !! x) as [tag|] eqn:Hl; [|done].
  by rewrite (lookup_weaken _ _ _ _ Hl Hsub) in Hx.
Qed.

Lemma child_of_kept tg tg' c p :
  tg' ⊆ tg → is_Some (tg' !! c) → child_of tg c p → child_of tg' c p.
Proof.
  intros Hsub [tag' Hc'] (tag & Hc & Hp).
  rewrite (lookup_weaken _ _ _ _ Hc' Hsub) in Hc. injection Hc as ->.
  by exists tag.
Qed.

Lemma pruned_refl t s : pruned t s s.
Proof.
  split; [done|]. split; [intros x [tag Hx] Hn; congruence|].
  split; [intros x c [tag Hx] Hn; congruence|].
  split; [intros f ids Hf; by exists ids|]. split; [done|].
  intros f ids x Hf Hx _. by exists ids.
Qed.

Lemma pruned_child t c s0 s1 s2 :
  child_of (tags s0) c t → pruned t s0 s1 → pruned c s1 s2 → pruned t s0 s2.
Proof.
  intros Hc (Hsub1 & Hsubtree1 & Hup1 & Hless1 & Hdet1 & Hkeep1)
            (Hsub2 & Hsubtree2 & Hup2 & Hless2 & Hdet2 & Hkeep2).
  assert (Hdesc : ∀ x, descends (tags s1) x c → descends (tags s0) x t).
  { intros x Hx. eapply rtc_r; [|exact Hc]. by eapply descends_weaken. }
  split; [by etrans|]. split; [|split; [|split; [|split]]].
  - intros x Hx Hn. destruct (tags s1 !! x) as [tag|] eqn:Hx1.
    + apply Hdesc, Hsubtree2; [by eexists|done].
    + by apply Hsubtree1.
  - intros x c' Hx Hn Hc'. destruct (tags s1 !! x) as [tag|] eqn:Hx1.
    + destruct (tags s1 !! c') as [tag'|] eqn:Hc1.
      * apply (Hup2 x c'); [by eexists|done|].
        apply (child_of_kept (tags s0)); [done|by eexists|done].
      * by eapply lookup_None_weaken.
    + eapply lookup_None_weaken; [exact Hsub2|]. by apply (Hup1 x c').
  - intros f ids2 Hf. destruct (Hless2 f ids2 Hf) as (ids1 & Hf1 & Hsub).
    destruct (Hless1 f ids1 Hf1) as (ids & Hf0 & Hsub').
    exists ids. split; [done|set_solver].
  - intros f ids2 x Hf Hx Hx0. destruct (Hless2 f ids2 Hf) as (ids1 & Hf1 & Hsub).
    apply (Hdet2 f ids2 x Hf Hx). apply (Hdet1 f ids1 x Hf1); [set_solver|done].
  - intros f ids x Hf Hx Hnd.
    destruct (Hkeep1 f ids x Hf Hx Hnd) as (ids1 & Hf1 & Hx1).
    apply (Hkeep2 f ids1 x Hf1 Hx1). intros Hd. by apply Hnd, Hdesc.
Qed.

(** The last steps of [remove_tag]: [t] detached from every file, then
    possibly deleted. *)
Lemma pruned_finish t s s1 s3 :
  pruned t s s1 →
  (∀ c, child_of (tags s) c t → tags s1 !! c = None) →
  tags s3 ⊆ tags s1 →
  (∀ x, is_Some (tags s1 !! x) → tags s3 !! x = None → x = t) →
  (∀ f, file_tags s3 !! f = file_tags s1 !! f ≫= strip {[t]}) →
  pruned t s s3.
Proof.
  intros (Hsub1 & Hsubtree1 & Hup1 & Hless1 & Hdet1 & Hkeep1) Hgone Hsub3 Honly Hft.
  assert (Hstrip : ∀ f ids3, file_tags s3 !! f = Some ids3 →
            ∃ ids1, file_tags s1 !! f = Some ids1 ∧ ids3 = ids1 ∖ {[t]}).
  { intros f ids3 Hf. rewrite Hft in Hf.
    destruct (file_tags s1 !! f) as [ids1|]; [|done]. simpl in Hf.
    unfold strip in Hf. case_decide; [done|]. injection Hf as <-. by exists ids1. }
  split; [by etrans|]. split; [|split; [|split; [|split]]].
  - intros x Hx Hn. destruct (tags s1 !! x) as [tag|] eqn:Hx1.
    + rewrite (Honly x); [apply rtc_refl|by eexists|done].
    + by apply Hsubtree1.
  - intros x c Hx Hn Hc. destruct (tags s1 !! x) as [tag|] eqn:Hx1.
    + assert (x = t) as -> by (apply Honly; [by eexists|done]).
      eapply lookup_None_weaken; [exact Hsub3|]. by apply Hgone.
    + eapply lookup_None_weaken; [exact Hsub3|]. by apply (Hup1 x c).
  - intros f ids3 Hf. destruct (Hstrip f ids3 Hf) as (ids1 & Hf1 & ->).
    destruct (Hless1 f ids1 Hf1) as (ids & Hf0 & Hsub).
    exists ids. split; [done|set_solver].
  - intros f ids3 x Hf Hx Hx0. destruct (Hstrip f ids3 Hf) as (ids1 & Hf1 & ->).
    apply elem_of_difference in Hx as [Hx Hxt].
    destruct (Hdet1 f ids1 x Hf1 Hx Hx0) as [tag Htag].
    destruct (tags s3 !! x) as [tag'|] eqn:Hx3; [by eexists|].
    exfalso. apply Hxt, elem_of_singleton, Honly; [by eexists|done].
  - intros f ids x Hf Hx Hnd.
    destruct (Hkeep1 f ids x Hf Hx Hnd) as (ids1 & Hf1 & Hx1).
    assert (Hxt : x ≠ t) by (intros ->; apply Hnd, rtc_refl).
    exists (ids1 ∖ {[t]}). split; [|set_solver].
    rewrite Hft, Hf1. simpl. unfold strip. rewrite decide_False; [done|].
    intros [_ He]. set_solver.
Qed.

Lemma children_pruned (depth : nat) t s :
  (∀ c s1, pruned c s1 (snd (remove_tag depth c s1))
           ∧ ∀ s2, remove_tag depth c s1 = (Ok tt, s2) → tags s2 !! c = None) →
  ∀ (l : list string) (gone : string → Prop) s1,
    (∀ c, c ∈ l → child_of (tags s) c t) →
    pruned t s s1 →
    (∀ x, gone x → tags s1 !! x = None) →
    pruned t s (snd (for_each l (remove_tag depth) s1))
    ∧ ∀ s2, for_each l (remove_tag depth) s1 = (Ok tt, s2) →
            ∀ x, gone x ∨ x ∈ l → tags s2 !! x = None.
Proof.
  intros IH l. induction l as [|c l IHl]; intros gone s1 Hl Hp Hgone.
  - simpl. split; [done|]. intros s2 [= <-] x [Hx|Hx]; [by apply Hgone|].
    by apply elem_of_nil in Hx.
  - simpl. rewrite bind_run.
    destruct (IH c s1) as [Hpc Hokc].
    assert (Hp2 : pruned t s (snd (remove_tag depth c s1))).
    { eapply pruned_child; [apply Hl; left|exact Hp|exact Hpc]. }
    destruct (remove_tag depth c s1) as [[[]|e] s2] eqn:Hrun; simpl in *; [|done].
    destruct (IHl (λ x, gone x ∨ x = c) s2) as [Hfin Hokl].
    + intros c' Hc'. apply Hl. by right.
    + exact Hp2.
    + intros x [Hx| ->]; [|by apply Hokc].
      eapply lookup_None_weaken; [apply Hpc|]. by apply Hgone.
    + split; [exact Hfin|]. intros s3 Hrun3 x Hx. apply (Hokl s3 Hrun3).
      rewrite elem_of_cons in Hx. tauto.
Qed.

Lemma remove_tag_pruned (depth : nat) t s :
  pruned t s (snd (remove_tag depth t s))
  ∧ ∀ s', remove_tag depth t s = (Ok tt, s') → tags s' !! t = None.
Proof.
  revert t s. induction depth as [|depth IH]; intros t s.
  - simpl. split; [apply pruned_refl|done].
  - simpl. rewrite bind_run. unfold get. cbv beta iota.
    destruct (decide (is_Some (tags s !! t))) as [Ht|Ht];
      [|split; [apply pruned_refl|intros s' H; discriminate H]].
    rewrite bind_run.
    destruct (children_pruned depth t s IH (child_tags (tags s) t) (λ _, False) s)
      as [Hp1 Hgone1].
    { intros c Hc. by apply child_tags_spec. }
    { apply pruned_refl. }
    { done. }
    destruct (for_each (child_tags (tags s) t) (remove_tag depth) s)
      as [[[]|e] s1] eqn:Hloop; simpl in Hp1;
      [|split; [exact Hp1|intros s' H; discriminate H]].
    specialize (Hgone1 s1 eq_refl).
    rewrite bind_run. cbv beta iota. rewrite bind_run.
    destruct (detach_all t s1) as (s2 & -> & Htags2 & Hfile2 & Hft2).
    rewrite bind_run. cbv beta iota.
    assert (Hchildren : ∀ c, child_of (tags s) c t → tags s1 !! c = None).
    { intros c Hc. apply Hgone1. right. by apply child_tags_spec. }
    destruct (tags s2 !! t) as [tag|] eqn:Ht2.
    + rewrite bind_run. unfold modify, TagManager._save_data, modify.
      cbv beta iota. simpl. split.
      * apply (pruned_finish t s s1); try done; simpl.
        -- rewrite Htags2. apply delete_subseteq.
        -- intros x Hx Hn. rewrite Htags2 in Hn.
           apply lookup_delete_None in Hn as [Hn|Hn]; [done|].
           destruct Hx as [? Hx]. congruence.
      * intros s' [= <-]. simpl. apply lookup_delete_eq.
    + unfold raise. simpl. split; [|intros s' H; discriminate H].
      apply (pruned_finish t s s1); try done.
      * by rewrite Htags2.
      * intros x [tag Hx] Hn. rewrite Htags2 in Hn. congruence.
Qed.

End Pruning.

(** ** Well-formed stores *)

Section WellFormed.
Variable lower : string → string.
Implicit Types (tg : gmap string Tag) (s : Store) (t c x : string).

Lemma acyclic_weaken tg tg' : tg' ⊆ tg → acyclic tg → acyclic tg'.
Proof.
  intros Hsub Hacyc x Hx. apply (Hacyc x).
  eapply tc_mono; [|exact Hx]. intros a b. by apply child_of_weaken.
Qed.

Lemma well_formed_pruned t s s' : pruned t s s' → well_formed s → well_formed s'.
Proof.
  intros (Hsub & _ & Hup & Hless & Hdet & _) (Hpar & Hacyc & Href).
  split; [|split].
  - intros c p Hc.
    assert (Hc0 : child_of (tags s) c p) by by eapply child_of_weaken.
    destruct (tags s' !! p) as [tag|] eqn:Hp; [by eexists|].
    exfalso. destruct Hc as (tag & Hc & _).
    by rewrite (Hup p c (Hpar c p Hc0) Hp Hc0) in Hc.
  - by eapply acyclic_weaken.
  - intros f ids' x Hf Hx. destruct (Hless f ids' Hf) as (ids & Hf0 & Hids).
    apply (Hdet f ids' x Hf Hx). apply (Href f ids x Hf0). set_solver.
Qed.

Lemma fresh_id_free (fuel : nat) tg (base tag_id : string) (k : nat) (id : string) :
  fresh_id fuel tg base tag_id k = Some id → tg !! id = None.
Proof.
  revert tag_id k. induction fuel as [|fuel IH]; intros tag_id k; simpl; [done|].
  destruct (decide (is_Some (tg !! tag_id))) as [Ht|Ht]; [apply IH|].
  intros [= <-]. by apply eq_None_not_Some.
Qed.

Lemma well_formed_insert s (id : string) (tag : Tag) :
  well_formed s →
  tags s !! id = None →
  (∀ p, parent tag = Some p → is_Some (tags s !! p)) →
  well_formed (set_tags (insert id tag) s).
Proof.
  intros (Hpar & Hacyc & Href) Hfree Hparent.
  assert (Hedge : ∀ c p, child_of (<[id:=tag]> (tags s)) c p →
            (c = id ∧ parent tag = Some p) ∨ (c ≠ id ∧ child_of (tags s) c p)).
  { intros c p (tag' & Hc & Hp). apply lookup_insert_Some in Hc as [[<- <-]|[Hne Hc]].
    - by left.
    - right. split; [done|]. by exists tag'. }
  assert (Hnot : ∀ p, is_Some (tags s !! p) → p ≠ id).
  { intros p [tag' Hp] ->. congruence. }
  assert (Hold : ∀ x y, tc (child_of (<[id:=tag]> (tags s))) x y → x ≠ id →
            tc (child_of (tags s)) x y ∧ y ≠ id).
  { intros x y Hxy. induction Hxy as [x y Hxy|x y z Hxy _ IH]; intros Hx.
    - destruct (Hedge x y Hxy) as [[-> _]|[_ Hc]]; [done|].
      split; [by apply tc_once|]. by apply Hnot, (Hpar x y).
    - destruct (Hedge x y Hxy) as [[-> _]|[_ Hc]]; [done|].
      destruct IH as [Hyz Hz]; [by apply Hnot, (Hpar x y)|].
      split; [by eapply tc_l|done]. }
  split; [|split].
  - intros c p Hc. simpl in *.
    assert (Hp : is_Some (tags s !! p)).
    { destruct (Hedge c p Hc) as [[_ Hp]|[_ Hc']]; [by apply Hparent|].
      by apply (Hpar c p). }
    rewrite lookup_insert_ne; [done|]. intros Heq. apply (Hnot p Hp). by symmetry.
  - intros x Hx. simpl in Hx. destruct (decide (x = id)) as [->|Hne].
    + apply tc_first in Hx. destruct Hx as (p & Hstep & Hrest).
      destruct (Hedge id p Hstep) as [[_ Hp]|[? _]]; [|done].
      assert (Hpid : p ≠ id) by by apply Hnot, Hparent.
      apply rtc_tc in Hrest as [->|Hrest]; [done|].
      by destruct (Hold p id Hrest Hpid).
    + destruct (Hold x x Hx Hne) as [Hx' _]. by apply (Hacyc x).
  - intros f ids x Hf Hx. simpl in *.
    destruct (Href f ids x Hf Hx) as [tag' Htag'].
    destruct (decide (x = id)) as [->|Hne]; [congruence|].
    rewrite lookup_insert_ne by done. by eexists.
Qed.

Lemma create_tag_well_formed (fuel : nat) (name description : string)
    (parent : option string) :
  parent ≠ Some "" →
  preserves well_formed (create_tag lower fuel name description parent).
Proof.
  intros Hparent s Hs. unfold create_tag. rewrite bind_run. unfold get.
  cbv beta iota.
  destruct (parent_rejected (tags s) parent) eqn:Hrej; [done|].
  destruct (fresh_id fuel (tags s) _ _ 1) as [id|] eqn:Hid; [|done].
  apply fresh_id_free in Hid. rewrite !bind_run. unfold modify.
  cbv beta iota. simpl.
  destruct (well_formed_insert s id
              {| name := name; description := description; parent := parent |} Hs Hid)
    as (H1 & H2 & H3).
  { simpl. intros p ->. unfold parent_rejected in Hrej.
    apply andb_false_iff in Hrej as [Hrej|Hrej].
    - apply bool_decide_eq_false in Hrej. exfalso. apply Hrej. by intros ->.
    - apply bool_decide_eq_false in Hrej. by apply not_eq_None_Some. }
  split; [exact H1|]. split; [exact H2|exact H3].
Qed.

Lemma add_tag_to_file_well_formed f t : preserves well_formed (add_tag_to_file f t).
Proof.
  intros s (Hpar & Hacyc & Href).
  destruct (decide (is_Some (tags s !! t))) as [Ht|Ht].
  - rewrite add_tag_to_file_runs by done. simpl.
    split; [exact Hpar|]. split; [exact Hacyc|].
    intros g ids x. simpl. intros Hg Hx.
    apply lookup_insert_Some in Hg as [[_ <-]|[_ Hg]]; [|by eapply Href].
    apply elem_of_union in Hx as [Hx| ->%elem_of_singleton]; [|done].
    unfold get_file_tags in Hx.
    destruct (file_tags s !! PyPath.normpath f) as [ids0|] eqn:Hl; [|set_solver].
    by eapply Href.
  - unfold add_tag_to_file. rewrite bind_run. unfold get. cbv beta iota.
    by rewrite decide_False by done.
Qed.

Lemma remove_tag_from_file_well_formed f t :
  preserves well_formed (remove_tag_from_file f t).
Proof.
  intros s (Hpar & Hacyc & Href). rewrite remove_tag_from_file_runs. simpl.
  destruct (decide (t ∈ get_file_tags f s)) as [Ht|Ht]; [|done].
  split; [exact Hpar|]. split; [exact Hacyc|].
  assert (Hl : file_tags s !! PyPath.normpath f = Some (get_file_tags f s)).
  { unfold get_file_tags in *.
    destruct (file_tags s !! PyPath.normpath f); [done|set_solver]. }
  intros g ids x. simpl. destruct (decide (get_file_tags f s ∖ {[t]} = ∅)).
  - intros Hg Hx. apply lookup_delete_Some in Hg as [_ Hg]. by eapply Href.
  - intros Hg Hx. apply lookup_insert_Some in Hg as [[_ <-]|[_ Hg]];
      [|by eapply Href].
    apply (Href _ _ x Hl). set_solver.
Qed.

(** X19.  The well-formedness that [remove_tag] relies on is an
    invariant of the interface.  A new store is well formed: every
    parent reference names a tag, no tag is its own ancestor, and files
    refer to tags only.  [create_tag] (with a parent other than the
    empty string), [add_tag_to_file], [remove_tag_from_file] and
    [remove_tag] keep it so, whether they return or raise, also when
    [remove_tag] stops half-way for want of recursion depth. *)
Theorem well_formed_kept :
  well_formed empty_store
  ∧ (∀ fuel name description parent,
       parent ≠ Some "" →
       preserves well_formed (create_tag lower fuel name description parent))
  ∧ (∀ f t, preserves well_formed (add_tag_to_file f t))
  ∧ (∀ f t, preserves well_formed (remove_tag_from_file f t))
  ∧ (∀ depth t, preserves well_formed (remove_tag depth t)).
Proof.
  split; [|split; [|split; [|split]]].
  - split; [|split].
    + intros c p (tag & Hc & _). simpl in Hc. by rewrite lookup_empty in Hc.
    + intros x Hx. apply tc_first in Hx. destruct Hx as (p & (tag & Hc & _) & _).
      simpl in Hc. by rewrite lookup_empty in Hc.
    + intros f ids x Hf. simpl in Hf. by rewrite lookup_empty in Hf.
  - apply create_tag_well_formed.
  - apply add_tag_to_file_well_formed.
  - apply remove_tag_from_file_well_formed.
  - intros depth t s Hs. eapply well_formed_pruned; [|exact Hs].
    apply remove_tag_pruned.
Qed.

End WellFormed.

(** ** How a removal can fail *)

Section Outcomes.
Implicit Types (tg : gmap string Tag) (s : Store) (t c x : string).

Lemma reach_kept t s s1 (done : list string) :
  tags s1 ⊆ tags s →
  (∀ x, is_Some (tags s !! x) → tags s1 !! x = None →
     ∃ a, a ∈ done ∧ descends (tags s) x a) →
  (∀ a, a ∈ done → ¬ rtc (child_of (tags s)) t a) →
  ∀ x, rtc (child_of (tags s)) t x → is_Some (tags s !! x) → is_Some (tags s1 !! x).
Proof.
  intros Hsub Hinv1 Hinv2 x Htx Hx.
  destruct (tags s1 !! x) as [tag|] eqn:Hx1; [by eexists|]. exfalso.
  destruct (Hinv1 x Hx Hx1) as (a & Ha & Hxa).
  apply (Hinv2 a Ha). by etrans.
Qed.

Lemma rtc_kept t s s1 :
  tags s1 ⊆ tags s →
  (∀ x, rtc (child_of (tags s)) t x → is_Some (tags s !! x) → is_Some (tags s1 !! x)) →
  ∀ x y, rtc (child_of (tags s)) x y → rtc (child_of (tags s)) t x →
         rtc (child_of (tags s1)) x y.
Proof.
  intros Hsub Hkept x y Hxy. induction Hxy as [x|x z y Hxz _ IH]; intros Htx.
  - apply rtc_refl.
  - eapply rtc_l.
    + apply (child_of_kept (tags s)); [done| |done].
      apply Hkept; [done|]. by eapply child_of_is_tag.
    + apply IH. by eapply rtc_r.
Qed.

Lemma children_outcome (depth : nat) t s :
  (∀ c s1, is_Some (tags s1 !! c) → overflows_or_returns depth c s1) →
  ∀ (l done : list string) s1,
    NoDup (done ++ l) →
    (∀ c, c ∈ done ++ l → child_of (tags s) c t) →
    tags s1 ⊆ tags s →
    (∀ x, is_Some (tags s !! x) → tags s1 !! x = None →
       ∃ a, a ∈ done ∧ descends (tags s) x a) →
    (∀ a, a ∈ done → ¬ rtc (child_of (tags s)) t a) →
    ∃ s',
      for_each l (remove_tag depth) s1 = (Raise RecursionError, s')
      ∨ (for_each l (remove_tag depth) s1 = (Ok tt, s')
         ∧ tags s' ⊆ tags s
         ∧ (∀ x, is_Some (tags s !! x) → tags s' !! x = None →
              ∃ a, a ∈ done ++ l ∧ descends (tags s) x a)
         ∧ (∀ a, a ∈ done ++ l → ¬ rtc (child_of (tags s)) t a)).
Proof.
  intros IH l. induction l as [|c l IHl]; intros done s1 Hnd Hch Hsub Hinv1 Hinv2.
  - exists s1. right. rewrite app_nil_r. done.
  - assert (Hct : child_of (tags s) c t).
    { apply Hch. apply elem_of_app. right. left. }
    assert (Hkept := reach_kept t s s1 done Hsub Hinv1 Hinv2).
    assert (Hc1 : is_Some (tags s1 !! c)).
    { destruct (tags s1 !! c) as [tag|] eqn:Hc1; [by eexists|]. exfalso.
      destruct (Hinv1 c (child_of_is_tag _ _ _ Hct) Hc1) as (a & Ha & Hca).
      apply rtc_inv in Hca as [->|(z & Hcz & Hza)].
      - apply NoDup_app in Hnd as (_ & Hdisj & _). apply (Hdisj a Ha). left.
      - rewrite (child_of_functional _ _ _ _ Hcz Hct) in Hza. by apply (Hinv2 a Ha). }
    simpl. rewrite bind_run.
    destruct (remove_tag_pruned depth c s1) as [(Hsub2 & Hsubtree2 & _) _].
    destruct (IH c s1 Hc1) as (s2 & [Hrun|[Hrun Hnocycle]]).
    + exists s2. left. by rewrite Hrun.
    + rewrite Hrun in *. simpl in *.
      assert (Hinv2c : ¬ rtc (child_of (tags s)) t c).
      { intros Htc. apply Hnocycle. eapply tc_rtc_r.
        - apply tc_once. by apply (child_of_kept (tags s)).
        - apply (rtc_kept t s s1 Hsub Hkept); [done|apply rtc_refl]. }
      destruct (IHl (done ++ [c]) s2) as (s' & Hs').
      * by rewrite <- app_assoc.
      * intros c'. rewrite <- app_assoc. apply Hch.
      * by etrans.
      * intros x Hx Hx2. destruct (tags s1 !! x) as [tag|] eqn:Hx1.
        -- exists c. split; [apply elem_of_app; right; left|].
           eapply descends_weaken; [exact Hsub|].
           apply Hsubtree2; [by eexists|done].
        -- destruct (Hinv1 x Hx Hx1) as (a & Ha & Hxa).
           exists a. split; [apply elem_of_app; by left|done].
      * intros a [Ha| ->%list_elem_of_singleton]%elem_of_app; [by apply Hinv2|done].
      * exists s'. rewrite <- app_assoc in Hs'. exact Hs'.
Qed.

Lemma remove_tag_outcome (depth : nat) t s :
  is_Some (tags s !! t) → overflows_or_returns depth t s.
Proof.
  revert t s. induction depth as [|depth IH]; intros t s Ht.
  - exists s. by left.
  - unfold overflows_or_returns. simpl. rewrite bind_run. unfold get.
    cbv beta iota. rewrite decide_True by done. rewrite bind_run.
    destruct (children_outcome depth t s IH (child_tags (tags s) t) [] s)
      as (s1 & [Hloop|(Hloop & Hsub & Hinv1 & Hinv2)]).
    { apply child_tags_NoDup. }
    { intros c Hc. by apply child_tags_spec. }
    { done. }
    { intros x [tag Hx] Hn. congruence. }
    { intros a Ha. by apply elem_of_nil in Ha. }
    + exists s1. left. by rewrite Hloop.
    + simpl in Hinv1, Hinv2. rewrite Hloop.
      rewrite bind_run. cbv beta iota. rewrite bind_run.
      destruct (detach_all t s1) as (s2 & -> & Htags2 & _).
      rewrite bind_run. cbv beta iota.
      assert (Ht1 : is_Some (tags s1 !! t)).
      { by apply (reach_kept t s s1 (child_tags (tags s) t)). }
      rewrite Htags2. destruct Ht1 as [tag ->].
      eexists. right. split; [reflexivity|].
      intros Hcycle. apply tc_last in Hcycle as (z & Htz & Hzt).
      apply (Hinv2 z); [by apply child_tags_spec|done].
Qed.

(** X20.  How [remove_tag] ends on a tag of the store, whatever the
    store and the recursion depth: it returns, or raises
    [RecursionError]; no other exception leaves it.  When the tag is its
    own ancestor it raises [RecursionError] at every depth.  In both
    cases only the tag and descendants of it have been deleted, children
    before their parent, and every other tag is as before. *)
Theorem remove_tag_failure_modes (depth : nat) t s :
  is_Some (tags s !! t) →
  ∃ s',
    (remove_tag depth t s = (Ok tt, s')
     ∨ remove_tag depth t s = (Raise RecursionError, s'))
    ∧ (tc (child_of (tags s)) t t →
       remove_tag depth t s = (Raise RecursionError, s'))
    ∧ pruned t s s'
    ∧ (∀ x, ¬ descends (tags s) x t → tags s' !! x = tags s !! x).
Proof.
  intros Ht. destruct (remove_tag_pruned depth t s) as [Hp _].
  assert (Hframe : ∀ s', pruned t s s' →
            ∀ x, ¬ descends (tags s) x t → tags s' !! x = tags s !! x).
  { intros s' (Hsub & Hsubtree & _) x Hx.
    destruct (tags s !! x) as [tag|] eqn:Hx0.
    - destruct (tags s' !! x) as [tag'|] eqn:Hx1.
      + by rewrite (lookup_weaken _ _ _ _ Hx1 Hsub) in Hx0.
      + exfalso. apply Hx, Hsubtree; [by eexists|done].
    - by eapply lookup_None_weaken. }
  destruct (remove_tag_outcome depth t s Ht) as (s' & [Hrun|[Hrun Hno]]);
    rewrite Hrun in Hp; simpl in Hp; exists s'.
  - split; [by right|]. split; [done|]. split; [done|by apply Hframe].
  - split; [by left|]. split; [done|]. split; [done|by apply Hframe].
Qed.

Lemma remove_tag_failure_modes_witness :
  create_tag ascii_lower 1 "" "" (Some "") empty_store = (Ok (Some ""), self_parent)
  ∧ is_Some (tags self_parent !! "")
  ∧ ∃ s', remove_tag 1000 "" self_parent = (Raise RecursionError, s').
Proof.
  split; [vm_compute; reflexivity|].
  assert (Ht : is_Some (tags self_parent !! "")).
  { vm_compute. eauto. }
  split; [exact Ht|].
  destruct (remove_tag_failure_modes 1000 "" self_parent Ht)
    as (s' & _ & Hcycle & _).
  exists s'. apply Hcycle. apply tc_once.
  eexists. split; [vm_compute; reflexivity|reflexivity].
Defined.

End Outcomes.

(** ** Events in sequence *)

Section EventSequences.
Context {W : Type}.
Implicit Types (w : World W).




End EventSequences.

